(** * Content indexer and hybrid search engine of [visualize_github_star]

    A shallow embedding of [enhanced_github_indexer.py] (class
    [ContentIndexer]) and [search_api.py] (class [AdvancedSearchEngine]),
    followed by the properties of the store, the README cache and the
    ranking that the specification states.

    Conventions of the embedding.
    - Text is ASCII text ([string]); the character classes [\w], [\s] and
      [str.lower] are the ASCII restrictions of Python's.
    - Python floats are modelled by exact rationals ([Q]); rounding is not
      modelled.
    - Library functions whose code is not part of the repository are
      parameters: [hashlib.md5], [json.dumps], [difflib.SequenceMatcher.ratio],
      [math.log10], the FTS5 [MATCH] operator, the HTTP session and
      [datetime.fromisoformat]; so is [_clean_markdown], on whose regular
      expressions no property below depends.
    - SQLite is modelled as far as the statements of the source need it:
      rowids, the primary key, [INSERT OR REPLACE], [ORDER BY], [LIMIT],
      [LIKE] and the firing of triggers.
    - Instants are integers on the clock of zone-aware datetimes; an
      [updated_at] without a zone, which Python cannot compare with the
      time of a cache file, is outside the embedding.
    - [Search] is the engine on a database that holds the tables the
      indexer creates; [Engine] adds the database without them, on which
      the statements outside a [try] raise.
    - A raised exception is a value of type [exn]; fallible functions return
      [res A]. *)

From stdpp Require Import gmap strings list sorting.
From Stdlib Require Import Ascii QArith Qminmax Lqa.

Local Open Scope Z_scope.
Set Default Proof Using "Type".

(** ** Exceptions *)

Inductive exn : Type :=
  | OperationalError   (* sqlite3.OperationalError *)
  | ValueError         (* math domain error, malformed ISO date *)
.

Inductive res (A : Type) : Type :=
  | Ok (a : A)
  | Raise (e : exn).
Arguments Ok {A} a.
Arguments Raise {A} e.

#[global] Instance res_ret : MRet res := fun A a => Ok a.

#[global] Instance res_bind : MBind res := fun A B k m =>
  match m with
  | Ok a => k a
  | Raise e => Raise e
  end.

(** [for x in l: acc = f(acc, x)] where the body may raise. *)
Fixpoint for_each {A S} (f : S -> A -> res S) (l : list A) (s : S) : res S :=
  match l with
  | [] => Ok s
  | x :: l' => s' ← f s x; for_each f l' s'
  end.

(** ** Text *)

Module Text.

Definition code (c : ascii) : N := N_of_ascii c.

(** Python's [\s] and [str.strip] on ASCII: TAB..CR, FS..US and space. *)
Definition is_space (c : ascii) : bool :=
  let n := code c in
  ((9 <=? n) && (n <=? 13) || (28 <=? n) && (n <=? 32))%N.

Definition is_upper (c : ascii) : bool :=
  let n := code c in ((65 <=? n) && (n <=? 90))%N.

(** Python's [\w] on ASCII: letters, digits and underscore. *)
Definition is_word (c : ascii) : bool :=
  let n := code c in
  ((48 <=? n) && (n <=? 57) || (65 <=? n) && (n <=? 90)
   || (97 <=? n) && (n <=? 122) || (n =? 95))%N.

Definition lower_char (c : ascii) : ascii :=
  if is_upper c then ascii_of_N (code c + 32) else c.

Fixpoint lower (s : string) : string :=
  match s with
  | EmptyString => EmptyString
  | String c s' => String (lower_char c) (lower s')
  end.

(** [len(s)] *)
Definition len (s : string) : nat := String.length s.

(** [not s] for a string *)
Definition is_empty (s : string) : bool :=
  match s with EmptyString => true | _ => false end.

Fixpoint starts_with (p s : string) : bool :=
  match p, s with
  | EmptyString, _ => true
  | String a p', String b s' => if Ascii.eqb a b then starts_with p' s' else false
  | String _ _, EmptyString => false
  end.

(** [needle in hay] *)
Fixpoint contains (needle hay : string) : bool :=
  starts_with needle hay ||
  match hay with
  | EmptyString => false
  | String _ hay' => contains needle hay'
  end.

(** [sep.join(l)] *)
Fixpoint join (sep : string) (l : list string) : string :=
  match l with
  | [] => EmptyString
  | [x] => x
  | x :: l' => x +:+ sep +:+ join sep l'
  end.

(** [s[i:i+n]]; like Python's slice, [String.substring] stops at the end
    of [s]. *)
Definition slice (i n : nat) (s : string) : string :=
  String.substring i n s.

Fixpoint drop_spaces (s : string) : string :=
  match s with
  | String c s' => if is_space c then drop_spaces s' else s
  | EmptyString => EmptyString
  end.

Fixpoint rev_onto (s acc : string) : string :=
  match s with
  | EmptyString => acc
  | String c s' => rev_onto s' (String c acc)
  end.

Definition rev (s : string) : string := rev_onto s EmptyString.

(** [s.strip()] *)
Definition strip (s : string) : string :=
  rev (drop_spaces (rev (drop_spaces s))).

(** [re.sub(r'[^\w\s]', ' ', s)] *)
Fixpoint punct_to_space (s : string) : string :=
  match s with
  | EmptyString => EmptyString
  | String c s' =>
      String (if is_word c || is_space c then c else " "%char) (punct_to_space s')
  end.

(** [re.sub(r'\s+', ' ', s)]: every maximal run of whitespace becomes one
    space; [in_run] tells that the previous character was whitespace. *)
Fixpoint collapse_spaces (in_run : bool) (s : string) : string :=
  match s with
  | EmptyString => EmptyString
  | String c s' =>
      if is_space c
      then (if in_run then collapse_spaces true s'
            else String " "%char (collapse_spaces true s'))
      else String c (collapse_spaces false s')
  end.

(** [re.findall(r'\b\w{3,}\b', s)]: the maximal runs of word characters of
    length at least 3, left to right; [cur] is the run being read, reversed. *)
Definition flush_word (cur : string) : list string :=
  if (3 <=? len cur)%nat then [rev cur] else [].

Fixpoint find_words (cur : string) (s : string) : list string :=
  match s with
  | EmptyString => flush_word cur
  | String c s' =>
      if is_word c then find_words (String c cur) s'
      else flush_word cur ++ find_words EmptyString s'
  end.

(** *** Shapes of text *)

(** Every character of [s] satisfies [p]. *)
Fixpoint all_chars (p : ascii -> bool) (s : string) : bool :=
  match s with
  | EmptyString => true
  | String c s' => p c && all_chars p s'
  end.

Definition starts_space (s : string) : bool :=
  match s with
  | String c _ => is_space c
  | EmptyString => false
  end.

Definition ends_space (s : string) : bool := starts_space (rev s).

(** Whitespace in [s] is the space character only and never doubled;
    [in_run] tells that a space stands just before [s]. *)
Fixpoint well_spaced (in_run : bool) (s : string) : bool :=
  match s with
  | EmptyString => true
  | String c s' =>
      if is_space c
      then Ascii.eqb c " " && negb in_run && well_spaced true s'
      else well_spaced false s'
  end.

(** A lower-case letter, a digit, an underscore or a space. *)
Definition is_normal_char (c : ascii) : bool :=
  is_word c && negb (is_upper c) || Ascii.eqb c " ".

(** Words of lower-case word characters, separated by single spaces, with
    no space at either end. *)
Definition normal (s : string) : bool :=
  all_chars is_normal_char s && well_spaced false s
  && negb (starts_space s) && negb (ends_space s).

End Text.

(** ** Data model *)

(** [RepoContent], the dataclass of the indexer. *)
Record RepoContent : Type := {
  full_name : string;
  name : string;
  description : string;
  language : string;
  stars : Z;
  updated_at : string;
  html_url : string;
  owner_login : string;
  owner_avatar : string;
  archived : bool;
  readme_content : string;
  topics : list string;
  last_indexed : string;
}.

(** A row of table [repo_index]: SQLite's implicit [rowid], the columns that
    [save_to_database] fills from a [RepoContent], and [content_hash].  The
    [topics] column holds [json.dumps(topics)]; [json.loads] of that text is
    the list again, so the row keeps the list and the text is rendered where
    SQL reads the column. *)
Record row : Type := {
  rowid : Z;
  content : RepoContent;
  content_hash : string;
}.

(** A document of the FTS5 table [repo_fts]: the column values whose
    postings are in the full-text index under [fts_rowid]. *)
Record fts_doc : Type := {
  fts_rowid : Z;
  fts_full_name : string;
  fts_name : string;
  fts_description : string;
  fts_readme_content : string;
  fts_topics : string;
}.

#[global] Instance fts_doc_eq_dec : EqDecision fts_doc.
Proof. solve_decision. Defined.

(** The database file [repo_index.db]: the table in rowid order and the
    documents held by the full-text index. *)
Record db : Type := {
  repo_index : list row;
  repo_fts : list fts_doc;
}.

Definition empty_db : db := {| repo_index := []; repo_fts := [] |}.

(** [full_name TEXT PRIMARY KEY]: no two rows of the table share it. *)
Definition unique_names (d : db) : Prop :=
  NoDup (map (fun r => full_name (content r)) (repo_index d)).

(** A file of the cache directory. *)
Record file : Type := {
  st_mtime : Z;
  text : string;
}.

(** ** The indexer: [ContentIndexer] *)

Module Indexer.
Section Indexer.

(** [hashlib.md5(s.encode()).hexdigest()] *)
Variable md5 : string -> string.
(** [json.dumps] of a list of strings *)
Variable json_dumps : list string -> string.
(** [datetime.fromisoformat(s.replace('Z', '+00:00'))] as an instant on the
    clock of [st_mtime]; [None] when the call raises. *)
Variable fromisoformat : string -> option Z.
(** One pass of the body of the download loop for a URL: [Some content]
    when the session answers 200 with a file whose base64 content decodes
    to [content]; [None] for any other answer and for any exception, which
    the loop swallows. *)
Variable download : string -> option string.
(** [_clean_markdown] *)
Variable clean_markdown : string -> string.

(** *** [_setup_database]: the triggers *)

Definition fts_of (r : row) : fts_doc :=
  {| fts_rowid := rowid r;
     fts_full_name := full_name (content r);
     fts_name := name (content r);
     fts_description := description (content r);
     fts_readme_content := readme_content (content r);
     fts_topics := json_dumps (topics (content r)) |}.

(** [INSERT INTO repo_fts(rowid, ...) VALUES (...)] *)
Definition fts_insert (doc : fts_doc) (index : list fts_doc) : list fts_doc :=
  index ++ [doc].

(** [INSERT INTO repo_fts(repo_fts, rowid, ...) VALUES ('delete', ...)]:
    the postings of one document with these values leave the index. *)
Fixpoint fts_delete (doc : fts_doc) (index : list fts_doc) : list fts_doc :=
  match index with
  | [] => []
  | d :: index' => if decide (d = doc) then index' else d :: fts_delete doc index'
  end.

Definition with_fts (d : db) (index : list fts_doc) : db :=
  {| repo_index := repo_index d; repo_fts := index |}.

(** [CREATE TRIGGER repo_ai AFTER INSERT ON repo_index] *)
Definition repo_ai (new : row) (d : db) : db :=
  with_fts d (fts_insert (fts_of new) (repo_fts d)).

(** [CREATE TRIGGER repo_ad AFTER DELETE ON repo_index] *)
Definition repo_ad (old : row) (d : db) : db :=
  with_fts d (fts_delete (fts_of old) (repo_fts d)).

(** [CREATE TRIGGER repo_au AFTER UPDATE ON repo_index] *)
Definition repo_au (old new : row) (d : db) : db :=
  with_fts d (fts_insert (fts_of new) (fts_delete (fts_of old) (repo_fts d))).

(** *** The SQL statements of the indexer *)

Definition has_name (fn : string) (r : row) : bool :=
  String.eqb (full_name (content r)) fn.

(** The rowid SQLite gives a new row: one more than the largest in use. *)
Definition new_rowid (rows : list row) : Z :=
  foldr (fun r m => Z.max (rowid r) m) 0 rows + 1.

(** [SELECT content_hash FROM repo_index WHERE full_name = ?], [fetchone] *)
Definition select_content_hash (fn : string) (d : db) : option string :=
  match filter (fun r => has_name fn r = true) (repo_index d) with
  | r :: _ => Some (content_hash r)
  | [] => None
  end.

(** [INSERT OR REPLACE INTO repo_index (...) VALUES (...)].  The new rowid
    is chosen first; the rows that conflict on the primary key
    [full_name] are deleted, and for them [repo_ad] fires only if the
    connection has [PRAGMA recursive_triggers] on; the new row is
    inserted and [repo_ai] fires.  [repo_au] never fires for this
    statement. *)
Definition insert_or_replace (recursive_triggers : bool)
    (rc : RepoContent) (h : string) (d : db) : db :=
  let new := {| rowid := new_rowid (repo_index d); content := rc; content_hash := h |} in
  let olds := filter (fun r => has_name (full_name rc) r = true) (repo_index d) in
  let kept := filter (fun r => has_name (full_name rc) r <> true) (repo_index d) in
  let d1 := {| repo_index := kept; repo_fts := repo_fts d |} in
  let d2 := if recursive_triggers then foldl (fun d old => repo_ad old d) d1 olds else d1 in
  repo_ai new {| repo_index := repo_index d2 ++ [new]; repo_fts := repo_fts d2 |}.

(** Modelled from the spec: the maintenance action [delete(full_name)],
    which the source does not define; as a statement on the store it is
    [DELETE FROM repo_index WHERE full_name = ?], for which [repo_ad]
    fires once per deleted row. *)
Definition delete (fn : string) (d : db) : db :=
  let olds := filter (fun r => has_name fn r = true) (repo_index d) in
  let kept := filter (fun r => has_name fn r <> true) (repo_index d) in
  foldl (fun d old => repo_ad old d) {| repo_index := kept; repo_fts := repo_fts d |} olds.

(** The connection is opened by [sqlite3.connect(INDEX_DB)] and no PRAGMA is
    issued: [recursive_triggers] has SQLite's default, off. *)
Definition connection_recursive_triggers : bool := false.

(** *** [get_content_hash] *)
Definition get_content_hash (rc : RepoContent) : string :=
  md5 (description rc +:+ readme_content rc +:+ updated_at rc).

(** *** [save_to_database] *)
Definition save_to_database (rc : RepoContent) (d : db) : db :=
  let h := get_content_hash rc in
  match select_content_hash (full_name rc) d with
  | Some stored =>
      if String.eqb stored h then d
      else insert_or_replace connection_recursive_triggers rc h d
  | None => insert_or_replace connection_recursive_triggers rc h d
  end.

(** A maintenance history of the store. *)
Inductive op : Type :=
  | Upsert (rc : RepoContent)
  | Delete (fn : string).

Definition step (d : db) (o : op) : db :=
  match o with
  | Upsert rc => save_to_database rc d
  | Delete fn => delete fn d
  end.

Definition run (ops : list op) (d : db) : db := foldl step d ops.

(** The same history on a connection whose conflict deletions fire
    [repo_ad]. *)
Definition save_with (recursive_triggers : bool) (rc : RepoContent) (d : db) : db :=
  let h := get_content_hash rc in
  match select_content_hash (full_name rc) d with
  | Some stored =>
      if String.eqb stored h then d
      else insert_or_replace recursive_triggers rc h d
  | None => insert_or_replace recursive_triggers rc h d
  end.

Definition step_with (recursive_triggers : bool) (d : db) (o : op) : db :=
  match o with
  | Upsert rc => save_with recursive_triggers rc d
  | Delete fn => delete fn d
  end.

Definition run_with (recursive_triggers : bool) (ops : list op) (d : db) : db :=
  foldl (step_with recursive_triggers) d ops.

(** The shadow index is in step with the store: its documents are, up to
    order, the documents of the rows. *)
Definition in_sync (d : db) : Prop :=
  repo_fts d ≡ₚ map fts_of (repo_index d).

(** *** [fetch_readme_content] *)

Fixpoint replace_slash (s : string) : string :=
  match s with
  | EmptyString => EmptyString
  | String c s' => String (if Ascii.eqb c "/" then "_"%char else c) (replace_slash s')
  end.

(** [self.cache_dir / f"{full_name.replace('/', '_')}_readme.txt"] *)
Definition cache_file (fn : string) : string :=
  "cache/" +:+ replace_slash fn +:+ "_readme.txt".

Definition readme_files : list string :=
  ["README.md"; "readme.md"; "README.rst"; "README.txt"; "README"].

Definition readme_url (fn readme_file : string) : string :=
  "https://api.github.com/repos/" +:+ fn +:+ "/contents/" +:+ readme_file.

(** The cache check at the head of [fetch_readme_content]: the cached
    text, or [None] for a miss. *)
Definition cache_lookup (fn upd : string) (files : gmap string file)
    : res (option string) :=
  match files !! cache_file fn with
  | Some f =>
      match fromisoformat upd with
      | Some repo_updated =>
          if repo_updated <? st_mtime f then Ok (Some (text f)) else Ok None
      | None => Raise ValueError
      end
  | None => Ok None
  end.

(** The download loop; [now] is the clock when [write_text] stamps the
    cache file. *)
Fixpoint fetch_remote (now : Z) (fn : string) (candidates : list string)
    (files : gmap string file) : string * gmap string file :=
  match candidates with
  | [] => (EmptyString, files)
  | readme_file :: rest =>
      match download (readme_url fn readme_file) with
      | Some raw =>
          let cleaned := clean_markdown raw in
          (cleaned, <[cache_file fn := {| st_mtime := now; text := cleaned |}]> files)
      | None => fetch_remote now fn rest files
      end
  end.

Definition fetch_readme_content (now : Z) (fn upd : string)
    (files : gmap string file) : res (string * gmap string file) :=
  hit ← cache_lookup fn upd files;
  match hit with
  | Some cached => Ok (cached, files)
  | None => Ok (fetch_remote now fn readme_files files)
  end.

End Indexer.
End Indexer.

(** ** Sorting and slicing as SQL and Python do them *)

Section Order.
Context {A K : Type} (key : A -> K) (ltb : K -> K -> bool).

(** [x] goes before the first element whose key is not larger than its
    own, so equal keys keep their order. *)
Fixpoint insert_desc (x : A) (l : list A) : list A :=
  match l with
  | [] => [x]
  | y :: l' => if ltb (key x) (key y) then y :: insert_desc x l' else x :: l
  end.

(** A stable sort by descending key: [l.sort(key=..., reverse=True)] and
    [ORDER BY ... DESC] (for which the order of ties is the scan order). *)
Definition sort_desc (l : list A) : list A := foldr insert_desc [] l.
End Order.

(** [a] may stand before [b] in an order of descending integer keys. *)
Definition descending {A} (key : A -> Z) (a b : A) : Prop := key b <= key a.

(** [l[:k]] for a Python integer [k] *)
Definition py_take {A} (k : Z) (l : list A) : list A :=
  if 0 <=? k then take (Z.to_nat k) l
  else take (length l - Z.to_nat (- k)) l.

(** [LIMIT k]: a negative [k] means no limit in SQLite. *)
Definition sql_limit {A} (k : Z) (l : list A) : list A :=
  if k <? 0 then l else take (Z.to_nat k) l.

Definition Qltb (a b : Q) : bool := negb (Qle_bool b a).

(** ** The search engine: [AdvancedSearchEngine] *)

Module Search.
Section Search.
Import Text.
Local Open Scope Q_scope.

(** [json.dumps] of a list of strings *)
Variable json_dumps : list string -> string.
(** [difflib.SequenceMatcher(None, a, b).ratio()] *)
Variable ratio : string -> string -> Q.
(** [math.log10] on positive integers *)
Variable log10 : Z -> Q.
(** [SELECT rowid FROM repo_fts WHERE repo_fts MATCH ?]: the rowids that
    match, or [None] when SQLite raises [OperationalError]. *)
Variable fts_match : string -> list fts_doc -> option (list Z).

Record SearchResult : Type := {
  repo : row;
  score : Q;
  matched_fields : list string;
  snippets : list (string * string);
}.

(** *** [normalize_query] *)
Definition normalize_query (query : string) : string :=
  strip (collapse_spaces false (punct_to_space (lower query))).

(** *** [extract_keywords] *)
Definition stop_words : list string :=
  ["the"; "and"; "for"; "are"; "but"; "not"; "you"; "all"; "can"; "had";
   "her"; "was"; "one"; "our"; "out"; "day"; "get"; "has"; "him"; "his";
   "how"; "its"; "may"; "new"; "now"; "old"; "see"; "two"; "way"; "who";
   "boy"; "did"; "she"; "use"; "her"; "way"; "many"; "some"; "time";
   "very"; "when"; "much"; "then"; "them"; "well"; "were"].

Definition is_stop_word (w : string) : bool := existsb (String.eqb w) stop_words.

Definition extract_keywords (text : string) : list string :=
  if is_empty text then []
  else List.filter (fun w => negb (is_stop_word w)) (find_words EmptyString (lower text)).

(** *** [calculate_text_similarity] *)

(** The score of one text word against one query word. *)
Definition word_score (query_word text_word : string) : Q :=
  if String.eqb query_word text_word then 1
  else if contains query_word text_word || contains text_word query_word then 0.8
  else
    let s := ratio query_word text_word in
    if Qltb s 0.6 then 0 else s.

(** The inner loop: the best score and the word that reached it. *)
Definition best_match (query_word : string) (text_words : list string)
    : Q * option string :=
  fold_left
    (fun '(best_match_score, best) text_word =>
       let s := word_score query_word text_word in
       if Qltb best_match_score s then (s, Some text_word)
       else (best_match_score, best))
    text_words (0, None).

Definition calculate_text_similarity (query_words : list string) (text : string)
    : Q * list string :=
  if is_empty text || bool_decide (query_words = []) then (0, [])
  else
    let text_words := extract_keywords text in
    if bool_decide (text_words = []) then (0, [])
    else
      let '(total_score, matches) :=
        fold_left
          (fun '(total_score, matches) query_word =>
             let '(best_match_score, best) := best_match query_word text_words in
             if Qltb 0 best_match_score
             then (total_score + best_match_score, matches ++ option_list best)
             else (total_score, matches))
          query_words (0, []) in
      (total_score / inject_Z (Z.of_nat (length query_words)), matches).

(** *** [extract_snippet] *)

(** [range(0, n, step)] *)
Definition range_step (n step : nat) : list nat :=
  map (fun k => k * step)%nat (seq 0 ((n + step - 1) / step)).

Definition extract_snippet (text : string) (query_words : list string)
    (max_length : nat) : string :=
  if is_empty text || bool_decide (query_words = [])
  then (if (max_length <? len text)%nat
        then slice 0 max_length text +:+ "..." else text)
  else
    let text_lower := lower text in
    let '(best_pos, best_score) :=
      fold_left
        (fun '(best_pos, best_score) i =>
           let snippet := slice i max_length text_lower in
           let sc := length (List.filter (fun word => contains word snippet) query_words) in
           if (best_score <? sc)%nat then (i, sc) else (best_pos, best_score))
        (range_step (len text) 50) (0%nat, 0%nat) in
    let snippet := slice best_pos max_length text in
    let snippet := if (0 <? best_pos)%nat then "..." +:+ snippet else snippet in
    if (best_pos + max_length <? len text)%nat then snippet +:+ "..." else snippet.

(** *** [score_repository] *)

Inductive field : Type := Name | FullName | Description | ReadmeContent | Topics.

Definition field_name (f : field) : string :=
  match f with
  | Name => "name"
  | FullName => "full_name"
  | Description => "description"
  | ReadmeContent => "readme_content"
  | Topics => "topics"
  end.

Definition fields_weights : list (field * Q) :=
  [(Name, 3); (FullName, 2.5); (Description, 2); (ReadmeContent, 1.5); (Topics, 2.5)].

(** [repo[field] or ""], with the topics parsed and joined by spaces. *)
Definition field_value (r : row) (f : field) : string :=
  match f with
  | Name => name (content r)
  | FullName => full_name (content r)
  | Description => description (content r)
  | ReadmeContent => readme_content (content r)
  | Topics => join " " (topics (content r))
  end.

Definition is_content_field (f : field) : bool :=
  match f with Description | ReadmeContent => true | _ => false end.

(** The loop over [fields_weights]: total score, matched fields, snippets. *)
Definition score_fields (query_words : list string) (r : row)
    : Q * list string * list (string * string) :=
  fold_left
    (fun '(total_score, matched, snips) '(f, weight) =>
       let value := field_value r f in
       if is_empty value then (total_score, matched, snips)
       else
         let similarity := fst (calculate_text_similarity query_words value) in
         if Qltb 0 similarity
         then (total_score + similarity * weight,
               matched ++ [field_name f],
               if is_content_field f
               then snips ++ [(field_name f, extract_snippet value query_words 200)]
               else snips)
         else (total_score, matched, snips))
    fields_weights (0, [], []).

(** [min(math.log10(stars + 1) * 0.1, 0.5)]; [math.log10] raises on an
    argument that is not positive. *)
Definition popularity_boost (stars : Z) : res Q :=
  if (stars + 1 <=? 0)%Z then Raise ValueError
  else
    let a := log10 (stars + 1)%Z * 0.1 in
    Ok (if Qltb 0.5 a then 0.5 else a).

Definition score_repository (r : row) (query : string) : res SearchResult :=
  let query_words := extract_keywords (normalize_query query) in
  if bool_decide (query_words = [])
  then Ok {| repo := r; score := 0; matched_fields := []; snippets := [] |}
  else
    let '(total_score, matched, snips) := score_fields query_words r in
    popularity_boost ← popularity_boost (stars (content r));
    let total_score := total_score + popularity_boost in
    let total_score := if archived (content r) then total_score * 0.7 else total_score in
    Ok {| repo := r; score := total_score; matched_fields := matched; snippets := snips |}.

(** *** [get_all_repos] *)

Definition order_by_stars (rows : list row) : list row :=
  sort_desc (fun r => stars (content r)) Z.ltb rows.

Definition browse_result (r : row) : SearchResult :=
  {| repo := r; score := 0; matched_fields := []; snippets := [] |}.

Definition get_all_repos (limit : Z) (d : db) : list SearchResult :=
  map browse_result (sql_limit limit (order_by_stars (repo_index d))).

(** *** [search] *)

(** Score a row and keep the result if it reaches [min_score]. *)
Definition score_and_keep (query : string) (min_score : Q)
    (results : list SearchResult) (r : row) : res (list SearchResult) :=
  result ← score_repository r query;
  Ok (if Qle_bool min_score (score result) then results ++ [result] else results).

(** The rows of the FTS query: the join on rowid, ordered by stars. *)
Definition fts_rows (ids : list Z) (d : db) : list row :=
  order_by_stars
    (flat_map (fun i => filter (fun r => rowid r = i) (repo_index d)) ids).

(** The second loop of [search]: every row whose [full_name] is not yet
    among the results is scored. *)
Definition fuzzy_pass (query : string) (min_score : Q)
    (results : list SearchResult) (d : db) : res (list SearchResult) :=
  for_each
    (fun results r =>
       if existsb (fun x => String.eqb (full_name (content (repo x)))
                                       (full_name (content r))) results
       then Ok results
       else score_and_keep query min_score results r)
    (order_by_stars (repo_index d)) results.

Definition search (query : string) (limit : Z) (min_score : Q) (d : db)
    : res (list SearchResult) :=
  if is_empty (strip query) then Ok (get_all_repos limit d)
  else
    let query_words := extract_keywords (normalize_query query) in
    if bool_decide (query_words = []) then Ok (get_all_repos limit d)
    else
      let fts_query := join " OR " query_words in
      results ←
        match fts_match fts_query (repo_fts d) with
        | Some ids => for_each (score_and_keep query min_score) (fts_rows ids d) []
        | None => Ok []      (* except sqlite3.OperationalError: pass *)
        end;
      results ←
        (if (Z.of_nat (length results) <? limit `div` 2)%Z
         then fuzzy_pass query min_score results d
         else Ok results);
      Ok (py_take limit (sort_desc score Qltb results)).

(** *** [get_suggestions] *)

(** [text LIKE '%' || q || '%'] where [q] holds no [%]: some substring of
    [text] matches [q] character by character, [_] matching any character
    and letters regardless of case. *)
Fixpoint like_here (q t : string) : bool :=
  match q, t with
  | EmptyString, _ => true
  | String a q', String b t' =>
      (Ascii.eqb a "_" || Ascii.eqb (lower_char a) (lower_char b)) && like_here q' t'
  | String _ _, EmptyString => false
  end.

Fixpoint like_contains (q t : string) : bool :=
  like_here q t ||
  match t with
  | EmptyString => false
  | String _ t' => like_contains q t'
  end.

Definition suggestion_rows (q : string) (limit : Z) (d : db) : list row :=
  sql_limit (limit * 3)%Z
    (filter (fun r => like_contains q (name (content r))
                      || like_contains q (json_dumps (topics (content r))) = true)
            (repo_index d)).

Definition add_if (q : string) (s : gset string) (candidate : string) : gset string :=
  if contains q (lower candidate) then s ∪ {[candidate]} else s.

Definition get_suggestions (query : string) (limit : Z) (d : db) : list string :=
  let normalized_query := normalize_query query in
  if (len normalized_query <? 2)%nat then []
  else
    let suggestions :=
      fold_left
        (fun s r => fold_left (add_if normalized_query) (topics (content r))
                      (add_if normalized_query s (name (content r))))
        (suggestion_rows normalized_query limit d) ∅ in
    py_take limit (elements suggestions).

(** *** Quantities the properties speak of *)

(** The total of [score_repository] before the popularity boost and the
    archival penalty. *)
Definition relevance (r : row) (query : string) : Q :=
  (score_fields (extract_keywords (normalize_query query)) r).1.1.

(** The fuzzy-only path: every row of the store is scored against the
    query, the results that reach [min_score] are sorted by descending score
    and cut to [limit]. *)
Definition fuzzy_only (query : string) (limit : Z) (min_score : Q) (d : db)
    : res (list SearchResult) :=
  results ← for_each (score_and_keep query min_score) (order_by_stars (repo_index d)) [];
  Ok (py_take limit (sort_desc score Qltb results)).

(** *** The scoring formula in the words of the specification *)

Definition Qmax_list (l : list Q) : Q := foldr Qmax 0 l.
Definition Qsum (l : list Q) : Q := foldr Qplus 0 l.

(** The best field-word score of a keyword: the maximum over the field's
    words. *)
Definition spec_best (query_word : string) (words : list string) : Q :=
  Qmax_list (map (word_score query_word) words).

(** The field similarity: the best scores summed, over the number of
    keywords. *)
Definition spec_similarity (query_words : list string) (text : string) : Q :=
  Qsum (map (fun query_word => spec_best query_word (extract_keywords text)) query_words)
  / inject_Z (Z.of_nat (length query_words)).

(** The fields whose similarity is strictly positive. *)
Definition spec_matched (query_words : list string) (r : row) : list string :=
  map field_name
    (List.filter (fun f => Qltb 0 (spec_similarity query_words (field_value r f)))
       (map fst fields_weights)).

(** The total relevance: the sum over the fields of similarity times weight. *)
Definition spec_relevance (query_words : list string) (r : row) : Q :=
  Qsum (map (fun '(f, weight) => spec_similarity query_words (field_value r f) * weight)
          fields_weights).

End Search.
End Search.

(** ** The engine on the database it opens ([search_api.py]) *)

Module Engine.
Section Engine.
Import Text Search.
Local Open Scope Q_scope.

Variable ratio : string -> string -> Q.
Variable log10 : Z -> Q.
Variable fts_match : string -> list fts_doc -> option (list Z).

(** What [get_connection] opens.  [sqlite3.connect(db_path)] opens the
    database the indexer has built, [Some d], or creates an empty one when
    there is none yet, [None]: a database without the table [repo_index],
    on which every statement that names the table raises
    [OperationalError] (no such table).  The definitions of [Search] are
    the engine on a database that holds the tables. *)
Definition connection : Type := option db.

(** *** [get_all_repos]: its [SELECT] stands outside any [try]. *)
Definition get_all_repos (limit : Z) (conn : connection) : res (list SearchResult) :=
  match conn with
  | Some d => Ok (Search.get_all_repos limit d)
  | None => Raise OperationalError
  end.

(** *** [search].  The [try] holds the full-text query and the scoring of
    its rows, and its [except] catches [OperationalError] only; the
    [SELECT] of the second loop stands outside it. *)
Definition search (query : string) (limit : Z) (min_score : Q) (conn : connection)
    : res (list SearchResult) :=
  if is_empty (strip query) then get_all_repos limit conn
  else
    let query_words := extract_keywords (normalize_query query) in
    if bool_decide (query_words = []) then get_all_repos limit conn
    else
      let fts_query := join " OR " query_words in
      results ←
        match conn with
        | Some d =>
            match fts_match fts_query (repo_fts d) with
            | Some ids =>
                for_each (score_and_keep ratio log10 query min_score) (fts_rows ids d) []
            | None => Ok []      (* except sqlite3.OperationalError: pass *)
            end
        | None => Ok []          (* no such table: the same except clause *)
        end;
      results ←
        (if (Z.of_nat (length results) <? limit `div` 2)%Z
         then match conn with
              | Some d => fuzzy_pass ratio log10 query min_score results d
              | None => Raise OperationalError
              end
         else Ok results);
      Ok (py_take limit (sort_desc score Qltb results)).

End Engine.
End Engine.

(** ** The indexing pass: [process_repository], [build_index],
       [search_repositories] *)

Module Pipeline.
Section Pipeline.
Import Text.

(** [hashlib.md5(s.encode()).hexdigest()] *)
Variable md5 : string -> string.
(** [json.dumps] of a list of strings *)
Variable json_dumps : list string -> string.
(** [datetime.fromisoformat(s.replace('Z', '+00:00'))], [None] when it raises *)
Variable fromisoformat : string -> option Z.
(** One pass of the body of the download loop, as in [Indexer] *)
Variable download : string -> option string.
(** [_clean_markdown] *)
Variable clean_markdown : string -> string.
(** [datetime.isoformat] of an instant *)
Variable isoformat : Z -> string.
(** [SELECT rowid FROM repo_fts WHERE repo_fts MATCH ? ORDER BY rank]: the
    rowids that match in the order of their rank, or [None] when SQLite
    raises [OperationalError]. *)
Variable fts_ranked : string -> list fts_doc -> option (list Z).

(** A record of the starred listing as [process_repository] reads it.  The
    keys read with [repo_data[...]] are fields; the keys read with
    [repo_data.get(...)] are options, [None] standing for a missing key
    (and, for [description] and [language], also for a JSON null). *)
Record repo_data : Type := {
  rd_full_name : string;
  rd_name : string;
  rd_description : option string;
  rd_language : option string;
  rd_stargazers_count : option Z;
  rd_updated_at : string;
  rd_html_url : string;
  rd_owner_login : string;
  rd_owner_avatar : string;
  rd_archived : option bool;
  rd_topics : option (list string);
}.

(** *** [fetch_starred_repos] *)

(** One round of the listing loop for the page number [page]:
    [session.get], [raise_for_status] and [response.json()].  [None] stands
    for any exception of the round, [Some data] for the records of the
    page. *)
Variable get_page : nat -> option (list repo_data).

(** The [while True] loop, which ends at the first page that is empty
    ([if not data: break]) or raises ([except Exception: break]).  The loop
    has no bound of its own: [fuel] counts the rounds, and [None] says that
    the loop has not ended within [fuel] rounds. *)
Fixpoint fetch_pages (fuel page : nat) (repos : list repo_data)
    : option (list repo_data) :=
  match fuel with
  | O => None
  | S fuel =>
      match get_page page with
      | None => Some repos
      | Some [] => Some repos
      | Some data => fetch_pages fuel (S page) (repos ++ data)
      end
  end.

Definition fetch_starred_repos (fuel : nat) : option (list repo_data) :=
  fetch_pages fuel 1 [].

(** *** [process_repository]; [now] is the instant of the call. *)
Definition process_repository (now : Z) (rd : repo_data) (files : gmap string file)
    : res (RepoContent * gmap string file) :=
  fetched ←
    (if negb (default false (rd_archived rd))
     then Indexer.fetch_readme_content fromisoformat download clean_markdown now
            (rd_full_name rd) (rd_updated_at rd) files
     else Ok (EmptyString, files));
  Ok ({| full_name := rd_full_name rd;
         name := rd_name rd;
         description := default EmptyString (rd_description rd);
         language := default EmptyString (rd_language rd);
         stars := default 0 (rd_stargazers_count rd);
         updated_at := rd_updated_at rd;
         html_url := rd_html_url rd;
         owner_login := rd_owner_login rd;
         owner_avatar := rd_owner_avatar rd;
         archived := default false (rd_archived rd);
         readme_content := fetched.1;
         topics := default [] (rd_topics rd);
         last_indexed := isoformat now |},
      fetched.2).

(** *** [build_index] *)

(** What the pass has in hand: the cache directory, the database and the
    list [processed_repos]. *)
Record pass : Type := {
  cache : gmap string file;
  database : db;
  processed_repos : list RepoContent;
}.

(** The body of the loop for one record, processed at the instant [now]:
    [try: process, save, append; except Exception: continue]. *)
Definition index_one (st : pass) (item : Z * repo_data) : pass :=
  match process_repository item.1 item.2 (cache st) with
  | Ok (repo_content, files) =>
      {| cache := files;
         database := Indexer.save_to_database md5 json_dumps repo_content (database st);
         processed_repos := processed_repos st ++ [repo_content] |}
  | Raise _ => st
  end.

(** The loop of [build_index] over the fetched records, each with the
    instant at which it is processed. *)
Definition build_index (batch : list (Z * repo_data)) (st : pass) : pass :=
  foldl index_one st batch.

(** *** [search_repositories] of the indexer *)
Definition search_repositories (query : string) (limit : Z) (d : db)
    : res (list RepoContent) :=
  if is_empty (strip query)
  then Ok (map content
             (sql_limit limit (sort_desc (fun r => stars (content r)) Z.ltb (repo_index d))))
  else
    match fts_ranked query (repo_fts d) with
    | Some ids =>
        Ok (map content
              (sql_limit limit
                 (flat_map (fun i => filter (fun r => rowid r = i) (repo_index d)) ids)))
    | None => Raise OperationalError
    end.

(** *** What the store keeps *)

(** The primary key and the rowids are unique, every row carries the
    fingerprint of its own content, and every row has its document in the
    shadow index. *)
Definition consistent (d : db) : Prop :=
  unique_names d
  /\ NoDup (map rowid (repo_index d))
  /\ Forall (fun r => content_hash r = Indexer.get_content_hash md5 (content r))
            (repo_index d)
  /\ map (Indexer.fts_of json_dumps) (repo_index d) ⊆+ repo_fts d.

End Pipeline.
End Pipeline.

(** ** The search endpoint ([search_api.py], [/api/search]) *)

Module Api.
Section Api.
Import Text.

Variable ratio : string -> string -> Q.
Variable log10 : Z -> Q.
Variable fts_match : string -> list fts_doc -> option (list Z).

(** The JSON body of a reply: [success: True] with the query, the count
    and the results (each result carries its row, score, matched fields
    and snippets), or [success: False] with the error. *)
Inductive body : Type :=
  | Found (query : string) (total : nat) (results : list Search.SearchResult)
  | Failed (error : exn).

(** The view function [search] of [/api/search], on the arguments [q],
    [limit] and [min_score] of the request as [int] and [float] have read
    them and on the database the engine opens; the reply is the body with
    its status code. *)
Definition api_search (q : string) (limit : Z) (min_score : Q)
    (conn : Engine.connection) : body * Z :=
  let query := strip q in
  let limit := Z.min limit 100 in
  match Engine.search ratio log10 fts_match query limit min_score conn with
  | Ok results => (Found query (length results) results, 200)
  | Raise e => (Failed e, 500)       (* except Exception as e *)
  end.

End Api.
End Api.

(** ** Records that differ in chosen fields *)

Definition set_archived (b : bool) (r : row) : row :=
  let c := content r in
  {| rowid := rowid r;
     content := {| full_name := full_name c; name := name c;
                   description := description c; language := language c;
                   stars := stars c; updated_at := updated_at c;
                   html_url := html_url c; owner_login := owner_login c;
                   owner_avatar := owner_avatar c; archived := b;
                   readme_content := readme_content c; topics := topics c;
                   last_indexed := last_indexed c |};
     content_hash := content_hash r |}.


(** ** Sample data *)

Module Sample.

Definition make_repo (fn nm descr : string) (st : Z) (arch : bool)
    (readme : string) (tps : list string) (upd indexed : string) : RepoContent :=
  {| full_name := fn; name := nm; description := descr; language := "Python";
     stars := st; updated_at := upd; html_url := "https://github.com/" +:+ fn;
     owner_login := "octo"; owner_avatar := ""; archived := arch;
     readme_content := readme; topics := tps; last_indexed := indexed |}.

(** Two versions of one repository: the description changes. *)
Definition alpha : RepoContent :=
  make_repo "octo/tool" "tool" "alpha" 10 false "" [] "2024-01-01T00:00:00Z" "t1".
Definition beta : RepoContent :=
  make_repo "octo/tool" "tool" "beta" 10 false "" [] "2024-01-01T00:00:00Z" "t2".
(** The content of [alpha] with other stars and another [last_indexed]. *)
Definition alpha_starred : RepoContent :=
  make_repo "octo/tool" "tool" "alpha" 99 false "" [] "2024-01-01T00:00:00Z" "t3".

Definition fastjson : RepoContent :=
  make_repo "octo/fastjson" "fastjson" "a fast json parser" 1000 false ""
       ["json"; "parser"] "2024-01-01T00:00:00Z" "t1".
Definition slowjson : RepoContent :=
  make_repo "octo/slowjson" "slowjson" "slow" 1 true "" [] "2024-01-01T00:00:00Z" "t1".

Definition store : db :=
  {| repo_index := [ {| rowid := 1; content := slowjson; content_hash := "h1" |};
                     {| rowid := 2; content := fastjson; content_hash := "h2" |} ];
     repo_fts := [] |}.

(** Stand-ins for the library functions, for evaluation. *)
Definition identity_digest (s : string) : string := s.
Definition dumps (l : list string) : string := "[" +:+ Text.join ", " l +:+ "]".
Definition no_ratio (a b : string) : Q := 0%Q.
Fixpoint count_tens (fuel : nat) (n : Z) : Z :=
  match fuel with
  | O => 0
  | S fuel' => if n <? 10 then 0 else 1 + count_tens fuel' (n / 10)
  end.
(** The integer part of the decimal logarithm. *)
Definition log10_floor (n : Z) : Q := inject_Z (count_tens (Z.to_nat (Z.log2 n)) n).
Definition fts_raises (q : string) (index : list fts_doc) : option (list Z) := None.
Definition clock (s : string) : option Z :=
  if String.eqb s "2024-01-01T00:00:00Z" then Some 1704067200 else None.
Definition offline (url : string) : option string := None.

(** A cached README of [alpha], written at the instant of its [updated_at]. *)
Definition tool_cache : gmap string file :=
  {[ Indexer.cache_file "octo/tool" := {| st_mtime := 1704067200; text := "cached text" |} ]}.

(** An archived record with a negative star count. *)
Definition odd_row : row :=
  {| rowid := 7;
     content := make_repo "octo/odd" "odd" "the and for" (-5) true "" [] "" "";
     content_hash := "" |}.

(** The listing entry of [alpha], and one whose [updated_at] cannot be
    read. *)
Definition listed (fn nm upd : string) (arch : option bool) : Pipeline.repo_data :=
  {| Pipeline.rd_full_name := fn; Pipeline.rd_name := nm;
     Pipeline.rd_description := None; Pipeline.rd_language := Some "Python";
     Pipeline.rd_stargazers_count := Some 10; Pipeline.rd_updated_at := upd;
     Pipeline.rd_html_url := "https://github.com/" +:+ fn;
     Pipeline.rd_owner_login := "octo"; Pipeline.rd_owner_avatar := "";
     Pipeline.rd_archived := arch; Pipeline.rd_topics := None |}.
Definition tool_listed : Pipeline.repo_data :=
  listed "octo/tool" "tool" "2024-01-01T00:00:00Z" None.
Definition tool_undated : Pipeline.repo_data :=
  listed "octo/tool" "tool" "yesterday" (Some false).
Definition lib_archived : Pipeline.repo_data :=
  listed "octo/lib" "lib" "2024-01-01T00:00:00Z" (Some true).

(** A session that serves [readme.md] of [octo/tool] only. *)
Definition two_pages (page : nat) : option (list Pipeline.repo_data) :=
  match page with
  | 1%nat => Some [tool_listed]
  | 2%nat => Some [lib_archived; tool_undated]
  | 3%nat => Some []
  | _ => Some [tool_listed]
  end.

Definition online (url : string) : option string :=
  if String.eqb url "https://api.github.com/repos/octo/tool/contents/readme.md"
  then Some "Tool" else None.
Definition stamp (t : Z) : string := "2024-01-02T00:00:00+00:00".

Definition fresh_pass : Pipeline.pass :=
  {| Pipeline.cache := ∅; Pipeline.database := empty_db; Pipeline.processed_repos := [] |}.
Definition cached_pass : Pipeline.pass :=
  {| Pipeline.cache := tool_cache; Pipeline.database := empty_db;
     Pipeline.processed_repos := [] |}.

End Sample.

(** * Properties of the indexer *)

Section IndexerFacts.
Import Indexer.

Variable md5 : string -> string.
Variable json_dumps : list string -> string.
Variable fromisoformat : string -> option Z.
Variable download : string -> option string.
Variable clean_markdown : string -> string.

Local Abbreviation fts_of := (fts_of json_dumps).
Local Abbreviation save_to_database := (save_to_database md5 json_dumps).
Local Abbreviation get_content_hash := (get_content_hash md5).
Local Abbreviation insert_or_replace := (insert_or_replace json_dumps).
Local Abbreviation in_sync := (in_sync json_dumps).

(** *** What the statements do to the table *)

(** The triggers write to the shadow index only. *)
Lemma repo_index_fire_ad (olds : list row) (d0 : db) :
  repo_index (foldl (fun d old => repo_ad json_dumps old d) d0 olds) = repo_index d0.
Proof. revert d0. induction olds as [|o olds IH]; intros d0; [done|]. cbn. by rewrite IH. Qed.

Lemma repo_fts_fire_ad (olds : list row) (d0 : db) :
  repo_fts (foldl (fun d old => repo_ad json_dumps old d) d0 olds)
  = foldl (fun index old => fts_delete (fts_of old) index) (repo_fts d0) olds.
Proof. revert d0. induction olds as [|o olds IH]; intros d0; [done|]. cbn. by rewrite IH. Qed.

Lemma repo_index_insert_or_replace rt rc h d :
  repo_index (insert_or_replace rt rc h d)
  = filter (fun r => has_name (full_name rc) r <> true) (repo_index d)
    ++ [ {| rowid := new_rowid (repo_index d); content := rc; content_hash := h |} ].
Proof.
  unfold Indexer.insert_or_replace, repo_ai, with_fts. cbn [repo_index].
  destruct rt; [|done]. by rewrite repo_index_fire_ad.
Qed.

Lemma filter_conflicts_of_kept fn (rows : list row) :
  filter (fun r => has_name fn r = true)
         (filter (fun r => has_name fn r <> true) rows) = [].
Proof.
  induction rows as [|r rows IH]; [done|].
  rewrite filter_cons. case_decide as Hr; [|done].
  rewrite filter_cons. by case_decide.
Qed.

(** *** The primary key *)

Lemma names_filter_NoDup (P : row -> Prop) `{forall r, Decision (P r)} (rows : list row) :
  NoDup (map (fun r => full_name (content r)) rows) ->
  NoDup (map (fun r => full_name (content r)) (filter P rows)).
Proof.
  induction rows as [|r rows IH]; [done|]. cbn [map]. intros Hnodup.
  apply NoDup_cons in Hnodup as [Hr Hnodup]. rewrite filter_cons.
  case_decide; [|by apply IH]. cbn [map]. apply NoDup_cons. split; [|by apply IH].
  intros Hin. apply Hr.
  apply list_elem_of_fmap in Hin as (r' & Hname & Hin).
  apply list_elem_of_filter in Hin as [_ Hin].
  apply list_elem_of_fmap. by exists r'.
Qed.

Lemma unique_names_insert_or_replace rt rc h d :
  unique_names d -> unique_names (insert_or_replace rt rc h d).
Proof.
  unfold unique_names. intros Hnodup.
  rewrite repo_index_insert_or_replace, map_app. cbn [map content full_name].
  apply NoDup_app. split; [by apply names_filter_NoDup|]. split.
  - intros fn Hin Hnew. apply list_elem_of_singleton in Hnew as ->.
    apply list_elem_of_fmap in Hin as (r & Hname & Hin).
    apply list_elem_of_filter in Hin as [Hkeep _].
    apply Hkeep. unfold has_name. rewrite <- Hname. apply String.eqb_refl.
  - apply NoDup_singleton.
Qed.

Lemma unique_names_delete fn d :
  unique_names d -> unique_names (delete json_dumps fn d).
Proof.
  unfold unique_names, delete. intros Hnodup.
  rewrite repo_index_fire_ad. cbn [repo_index]. by apply names_filter_NoDup.
Qed.

(** Every history of the indexer keeps the primary key unique. *)
Lemma unique_names_run (ops : list op) (d : db) :
  unique_names d -> unique_names (run md5 json_dumps ops d).
Proof.
  revert d. induction ops as [|o ops IH]; intros d Hnodup; [done|].
  cbn. apply IH. destruct o as [rc|fn]; cbn.
  - unfold Indexer.save_to_database.
    destruct (select_content_hash _ d) as [stored|];
      [destruct (String.eqb _ _)|]; auto using unique_names_insert_or_replace.
  - by apply unique_names_delete.
Qed.

(** *** The write gate *)

Lemma select_after_insert rt rc h d :
  select_content_hash (full_name rc) (insert_or_replace rt rc h d) = Some h.
Proof.
  unfold select_content_hash.
  rewrite repo_index_insert_or_replace, filter_app, filter_conflicts_of_kept.
  rewrite filter_cons. cbn [app].
  case_decide as Hself; [done|].
  exfalso. apply Hself. unfold has_name. cbn. apply String.eqb_refl.
Qed.

Lemma save_skips rc d :
  select_content_hash (full_name rc) d = Some (get_content_hash rc) ->
  save_to_database rc d = d.
Proof.
  intros Hsel. unfold Indexer.save_to_database. rewrite Hsel.
  by rewrite String.eqb_refl.
Qed.

Lemma select_after_save rc d :
  select_content_hash (full_name rc) (save_to_database rc d)
  = Some (get_content_hash rc).
Proof.
  unfold Indexer.save_to_database.
  destruct (select_content_hash (full_name rc) d) as [stored|] eqn:Hsel.
  - destruct (String.eqb stored (get_content_hash rc)) eqn:Heq.
    + apply String.eqb_eq in Heq. by rewrite Hsel, Heq.
    + apply select_after_insert.
  - apply select_after_insert.
Qed.

Lemma fingerprint_fields rc rc' :
  description rc' = description rc ->
  readme_content rc' = readme_content rc ->
  updated_at rc' = updated_at rc ->
  get_content_hash rc' = get_content_hash rc.
Proof. unfold Indexer.get_content_hash. by intros -> -> ->. Qed.

(** C2. The fingerprint reads only [description], [readme_content] and
    [updated_at].  An upsert of a record whose fingerprint equals the
    stored [content_hash] of its [full_name] returns the database
    unchanged, store table and shadow index alike; so after a first
    upsert of [rc], the upsert of any [rc'] with the same key and the same
    three fields is skipped and the row of the first write stays, whatever
    [stars] and [last_indexed] of [rc'] are. *)
Theorem upsert_gated_by_fingerprint (rc rc' : RepoContent) (d : db) :
  full_name rc' = full_name rc ->
  description rc' = description rc ->
  readme_content rc' = readme_content rc ->
  updated_at rc' = updated_at rc ->
  get_content_hash rc' = md5 (description rc +:+ readme_content rc +:+ updated_at rc)
  /\ (forall d', select_content_hash (full_name rc') d' = Some (get_content_hash rc') ->
                 save_to_database rc' d' = d')
  /\ save_to_database rc' (save_to_database rc d) = save_to_database rc d.
Proof.
  intros Hfn Hd Hr Hu.
  pose proof (fingerprint_fields rc rc' Hd Hr Hu) as Hh.
  split; [by rewrite Hh|]. split.
  - intros d'. apply save_skips.
  - apply save_skips. rewrite Hfn, Hh. apply select_after_save.
Qed.

(** *** The README cache *)

(** C3. For a cached README whose record has a readable [updated_at], the
    cache check returns the cached text exactly when the file's
    modification time is strictly after [updated_at]: then
    [fetch_readme_content] returns the cached text and leaves the cache as
    it is; when the modification time is equal or earlier, the check is a
    miss although the file exists, and [fetch_readme_content] is the
    download loop. *)
Theorem cache_freshness (now : Z) (fn upd : string) (files : gmap string file)
    (f : file) (repo_updated : Z) :
  files !! cache_file fn = Some f ->
  fromisoformat upd = Some repo_updated ->
  (cache_lookup fromisoformat fn upd files = Ok (Some (text f))
   <-> repo_updated < st_mtime f)
  /\ (repo_updated < st_mtime f ->
      fetch_readme_content fromisoformat download clean_markdown now fn upd files
      = Ok (text f, files))
  /\ (st_mtime f <= repo_updated ->
      cache_lookup fromisoformat fn upd files = Ok None
      /\ fetch_readme_content fromisoformat download clean_markdown now fn upd files
         = Ok (fetch_remote download clean_markdown now fn readme_files files)).
Proof.
  intros Hfile Htime.
  unfold fetch_readme_content, cache_lookup. rewrite Hfile, Htime.
  destruct (Z.ltb_spec repo_updated (st_mtime f)) as [Hlt|Hge].
  - split; [by split|]. split; [done|]. intros Hle.
    exfalso. by apply (Z.lt_irrefl repo_updated), (Z.lt_le_trans _ (st_mtime f)).
  - split; [|split; [|done]].
    + split; [discriminate|]. intros Hlt.
      exfalso. by apply (Z.lt_irrefl repo_updated), (Z.lt_le_trans _ (st_mtime f)).
    + intros Hlt.
      exfalso. by apply (Z.lt_irrefl repo_updated), (Z.lt_le_trans _ (st_mtime f)).
Qed.

(** *** The shadow index *)

Lemma fts_delete_perm (doc : fts_doc) (index : list fts_doc) :
  doc ∈ index -> index ≡ₚ doc :: fts_delete doc index.
Proof.
  induction index as [|x index IH]; intros Hin.
  - by apply not_elem_of_nil in Hin.
  - cbn. case_decide as Hx; [by subst|].
    apply elem_of_cons in Hin as [->|Hin]; [done|].
    rewrite (IH Hin) at 1. apply Permutation_swap.
Qed.

Lemma delete_documents_perm (olds kept : list row) (index : list fts_doc) :
  index ≡ₚ map fts_of (olds ++ kept) ->
  foldl (fun index old => fts_delete (fts_of old) index) index olds ≡ₚ map fts_of kept.
Proof.
  revert index. induction olds as [|o olds IH]; intros index Hperm; [done|].
  cbn. apply IH. cbn in Hperm.
  assert (Hin : fts_of o ∈ index) by (rewrite Hperm; apply elem_of_cons; by left).
  apply fts_delete_perm in Hin. rewrite Hin in Hperm.
  by apply Permutation_cons_inv in Hperm.
Qed.

Lemma in_sync_delete (fn : string) (d : db) :
  in_sync d -> in_sync (delete json_dumps fn d).
Proof.
  unfold Indexer.in_sync, delete. intros Hsync.
  rewrite repo_index_fire_ad, repo_fts_fire_ad. cbn.
  apply delete_documents_perm.
  rewrite Hsync. apply Permutation_map. symmetry. apply filter_app_complement.
Qed.

Lemma in_sync_insert_or_replace (rc : RepoContent) (h : string) (d : db) :
  in_sync d -> in_sync (insert_or_replace true rc h d).
Proof.
  unfold Indexer.in_sync, Indexer.insert_or_replace, repo_ai, with_fts, fts_insert.
  intros Hsync. cbn [repo_index repo_fts].
  rewrite repo_index_fire_ad, repo_fts_fire_ad. cbn [repo_index repo_fts].
  rewrite map_app. apply Permutation_app; [|done].
  apply delete_documents_perm.
  rewrite Hsync. apply Permutation_map. symmetry. apply filter_app_complement.
Qed.

(** On a connection with [recursive_triggers] on, the triggers do keep the
    shadow index in step through every history. *)
Lemma in_sync_with_recursive_triggers (ops : list op) (d : db) :
  in_sync d -> in_sync (run_with md5 json_dumps true ops d).
Proof.
  revert d. induction ops as [|o ops IH]; intros d Hsync; [done|].
  cbn. apply IH. destruct o as [rc|fn]; cbn.
  - unfold save_with.
    destruct (select_content_hash _ d) as [stored|];
      [destruct (String.eqb _ _)|]; auto using in_sync_insert_or_replace.
  - by apply in_sync_delete.
Qed.

(** On the connection of the indexer every replacing write breaks the step:
    the shadow index gains a document while the store keeps its size or
    shrinks. *)
Lemma replacing_write_breaks_sync (rc : RepoContent) (d : db) (stored : string) :
  in_sync d ->
  select_content_hash (full_name rc) d = Some stored ->
  stored <> get_content_hash rc ->
  length (repo_fts (save_to_database rc d)) = S (length (repo_index d))
  /\ (length (repo_index (save_to_database rc d)) <= length (repo_index d))%nat
  /\ ~ in_sync (save_to_database rc d).
Proof.
  intros Hsync Hsel Hne.
  assert (Hsave : save_to_database rc d
                  = insert_or_replace false rc (get_content_hash rc) d).
  { unfold Indexer.save_to_database. rewrite Hsel.
    apply String.eqb_neq in Hne. by rewrite Hne. }
  assert (Hfts : length (repo_fts (save_to_database rc d)) = S (length (repo_index d))).
  { rewrite Hsave. unfold Indexer.insert_or_replace, repo_ai, with_fts, fts_insert.
    cbn [repo_fts]. rewrite length_app. cbn [length].
    rewrite (Permutation_length Hsync), length_map. apply Nat.add_1_r. }
  assert (Hrows : (length (repo_index (save_to_database rc d)) <= length (repo_index d))%nat).
  { rewrite Hsave, repo_index_insert_or_replace, length_app. cbn [length].
    pose proof (Permutation_length
                  (filter_app_complement (fun r => has_name (full_name rc) r = true)
                     (repo_index d))) as Hsplit.
    rewrite length_app in Hsplit. rewrite <- Hsplit.
    unfold select_content_hash in Hsel.
    destruct (filter (fun r => has_name (full_name rc) r = true) (repo_index d));
      [done|].
    cbn [length]. rewrite Nat.add_1_r, Nat.add_succ_l. apply le_n_S, Nat.le_add_l. }
  split; [done|]. split; [done|].
  intros Hbroken. apply Permutation_length in Hbroken.
  rewrite length_map, Hfts in Hbroken. rewrite <- Hbroken in Hrows.
  by apply Nat.nle_succ_diag_l in Hrows.
Qed.

(** C1 (defect). On the connection the indexer opens, a replacing write
    leaves the replaced document in the shadow index: after the upserts of
    [Sample.alpha] and of [Sample.beta], which share their [full_name] and
    differ in [description], the store has one row and the shadow index two
    documents, the one of the replaced content among them. *)
Theorem shadow_index_keeps_replaced_document :
  get_content_hash Sample.alpha <> get_content_hash Sample.beta ->
  let d := run md5 json_dumps [Upsert Sample.alpha; Upsert Sample.beta] empty_db in
  map (fun r => (rowid r, content r)) (repo_index d) = [(2, Sample.beta)]
  /\ map fts_rowid (repo_fts d) = [1; 2]
  /\ map fts_description (repo_fts d) = ["alpha"; "beta"]
  /\ ~ in_sync d.
Proof.
  intros Hne.
  assert (Hd : run md5 json_dumps [Upsert Sample.alpha; Upsert Sample.beta] empty_db
    = {| repo_index := [ {| rowid := 2; content := Sample.beta;
                            content_hash := get_content_hash Sample.beta |} ];
         repo_fts := [ fts_of {| rowid := 1; content := Sample.alpha;
                                 content_hash := get_content_hash Sample.alpha |};
                       fts_of {| rowid := 2; content := Sample.beta;
                                 content_hash := get_content_hash Sample.beta |} ] |}).
  { unfold run. cbn [foldl step].
    assert (H1 : save_to_database Sample.alpha empty_db
      = {| repo_index := [ {| rowid := 1; content := Sample.alpha;
                              content_hash := get_content_hash Sample.alpha |} ];
           repo_fts := [ fts_of {| rowid := 1; content := Sample.alpha;
                                   content_hash := get_content_hash Sample.alpha |} ] |})
      by reflexivity.
    rewrite H1. unfold Indexer.save_to_database.
    replace (select_content_hash (full_name Sample.beta) _)
      with (Some (get_content_hash Sample.alpha)) by reflexivity.
    apply String.eqb_neq in Hne. rewrite Hne. reflexivity. }
  cbv zeta. rewrite Hd. cbn [repo_index repo_fts map].
  repeat split.
  unfold Indexer.in_sync. cbn [repo_index repo_fts map].
  intros Hperm. apply Permutation_length in Hperm. discriminate.
Qed.

End IndexerFacts.


(** * Properties of the orderings *)

Section OrderFacts.
Context {A K : Type} (key : A -> K) (ltb : K -> K -> bool).

Lemma insert_desc_perm (x : A) (l : list A) : insert_desc key ltb x l ≡ₚ x :: l.
Proof.
  induction l as [|y l IH]; cbn; [done|].
  destruct (ltb (key x) (key y)); [|done].
  rewrite IH. apply Permutation_swap.
Qed.

Lemma sort_desc_perm (l : list A) : sort_desc key ltb l ≡ₚ l.
Proof.
  induction l as [|x l IH]; cbn; [done|].
  rewrite insert_desc_perm. by rewrite IH.
Qed.

End OrderFacts.

Section StarsOrder.
Context {A : Type} (key : A -> Z).
Local Abbreviation descending := (descending key).



Lemma sorted_take (n : nat) (l : list A) :
  StronglySorted descending l -> StronglySorted descending (take n l).
Proof.
  intros Hsorted. revert n.
  induction Hsorted as [|y l Hsorted IH Hall]; intros [|n]; cbn; try constructor.
  - apply IH.
  - apply Forall_forall. intros z Hz. rewrite Forall_forall in Hall.
    apply Hall. by eapply subseteq_take.
Qed.
End StarsOrder.

(** * Properties of the search engine *)

Section SearchFacts.
Import Text Search.
Local Open Scope Q_scope.

Variable json_dumps : list string -> string.
Variable ratio : string -> string -> Q.
Variable log10 : Z -> Q.
Variable fts_match : string -> list fts_doc -> option (list Z).

Local Abbreviation score_repository := (score_repository ratio log10).
Local Abbreviation popularity_boost := (popularity_boost log10).
Local Abbreviation score_fields := (score_fields ratio).
Local Abbreviation relevance := (relevance ratio).
Local Abbreviation search := (search ratio log10 fts_match).

Lemma Qltb_lt (a b : Q) : Qltb a b = true <-> a < b.
Proof.
  unfold Qltb. rewrite negb_true_iff, <- not_true_iff_false, Qle_bool_iff.
  split; [apply Qnot_le_lt | apply Qlt_not_le].
Qed.

Lemma Qltb_ge (a b : Q) : Qltb a b = false <-> b <= a.
Proof.
  unfold Qltb. rewrite negb_false_iff. apply Qle_bool_iff.
Qed.

(** *** Scoring without keywords *)

(** C10. A query from which no keyword is extracted gives every record the
    score 0 with no matched field and no snippet; the boost and the penalty
    are not reached, whatever [stars] and [archived] are. *)
Theorem score_zero_keywords (r : row) (query : string) :
  extract_keywords (normalize_query query) = [] ->
  score_repository r query
  = Ok {| repo := r; score := 0; matched_fields := []; snippets := [] |}.
Proof.
  intros Hnone. unfold Search.score_repository. by rewrite Hnone.
Qed.

(** *** Boost and penalty *)

Lemma score_repository_scored (r : row) (query : string) (b : Q) :
  extract_keywords (normalize_query query) <> [] ->
  popularity_boost (stars (content r)) = Ok b ->
  score_repository r query
  = Ok {| repo := r;
          score := (if archived (content r)
                    then (relevance r query + b) * 0.7
                    else relevance r query + b);
          matched_fields :=
            (score_fields (extract_keywords (normalize_query query)) r).1.2;
          snippets := (score_fields (extract_keywords (normalize_query query)) r).2 |}.
Proof.
  intros Hsome Hboost. unfold Search.score_repository, Search.relevance.
  rewrite bool_decide_eq_false_2 by done.
  destruct (score_fields _ r) as [[total matched] snips].
  rewrite Hboost. cbn. by destruct (archived (content r)).
Qed.

Lemma popularity_boost_value (stars : Z) :
  (0 <= stars)%Z ->
  exists b, popularity_boost stars = Ok b
            /\ b == Qmin (log10 (stars + 1) * 0.1) 0.5.
Proof.
  intros Hstars. unfold Search.popularity_boost.
  destruct (Z.leb_spec (stars + 1) 0) as [Hneg|_]; [lia|].
  eexists. split; [reflexivity|].
  destruct (Qltb 0.5 (log10 (stars + 1) * 0.1)) eqn:Hcmp.
  - apply Qltb_lt in Hcmp. symmetry. apply Q.min_r. by apply Qlt_le_weak.
  - apply Qltb_ge in Hcmp. symmetry. by apply Q.min_l.
Qed.

Lemma score_fields_archived (query_words : list string) (b : bool) (r : row) :
  score_fields query_words (set_archived b r) = score_fields query_words r.
Proof. reflexivity. Qed.

(** C7. For non-negative [stars] the popularity term is
    [min(log10(stars + 1) * 0.1, 0.5)], at most 0.5; and the score of a
    record exceeds its relevance, scaled by the archival factor, by the
    boost scaled alike. *)
Theorem popularity_boost_bounded (r : row) (query : string) :
  (0 <= stars (content r))%Z ->
  exists b,
    popularity_boost (stars (content r)) = Ok b
    /\ b == Qmin (log10 (stars (content r) + 1) * 0.1) 0.5
    /\ b <= 0.5
    /\ (extract_keywords (normalize_query query) <> [] ->
        exists result,
          score_repository r query = Ok result
          /\ score result
             == (if archived (content r) then 0.7 else 1) * relevance r query
                + (if archived (content r) then 0.7 else 1) * b).
Proof.
  intros Hstars.
  destruct (popularity_boost_value _ Hstars) as (b & Hboost & Hb).
  exists b. split; [done|]. split; [done|]. split.
  - rewrite Hb. apply Q.le_min_r.
  - intros Hsome. eexists. split; [by apply score_repository_scored|].
    cbn. destruct (archived (content r)); ring.
Qed.

(** C6. Two records that differ in [archived] alone: either scoring both
    raises the same exception, or the archived one scores 0.7 times the
    other with the same matched fields and snippets; with keywords, the
    archived score is 0.7 times the sum of relevance and boost, so the boost
    is scaled too. *)
Theorem archival_penalty (r : row) (query : string) :
  match score_repository (set_archived false r) query,
        score_repository (set_archived true r) query with
  | Ok plain, Ok arch =>
      score arch == 0.7 * score plain
      /\ matched_fields arch = matched_fields plain
      /\ snippets arch = snippets plain
      /\ forall b, extract_keywords (normalize_query query) <> [] ->
                   popularity_boost (stars (content r)) = Ok b ->
                   score plain = relevance r query + b
                   /\ score arch = (relevance r query + b) * 0.7
  | Raise e1, Raise e2 => e1 = e2
  | _, _ => False
  end.
Proof.
  unfold Search.score_repository. cbn [content set_archived archived stars].
  case_bool_decide as Hwords.
  - cbn. split; [ring|]. split; [done|]. split; [done|]. intros b Hsome. done.
  - rewrite !score_fields_archived. unfold Search.relevance.
    destruct (score_fields _ r) as [[total matched] snips]. cbn.
    destruct (popularity_boost (stars (content r))) as [b|e]; cbn; [|done].
    split; [ring|]. split; [done|]. split; [done|].
    intros b' _ [= <-]. done.
Qed.

(** *** The scoring formula *)

Lemma Qltb_proper (a b b' : Q) : b == b' -> Qltb a b = Qltb a b'.
Proof.
  intros Hb. destruct (Qltb a b') eqn:H'.
  - apply Qltb_lt. apply Qltb_lt in H'. by rewrite Hb.
  - apply Qltb_ge. apply Qltb_ge in H'. by rewrite Hb.
Qed.

#[local] Instance Qmax_proper : Proper (Qeq ==> Qeq ==> Qeq) Qmax := Q.max_compat.

Lemma Qmax_list_nonneg (l : list Q) : 0 <= Qmax_list l.
Proof.
  induction l as [|x l IH]; cbn; [apply Qle_refl|].
  eapply Qle_trans; [apply IH | apply Q.le_max_r].
Qed.

Lemma Qsum_zeros {A} (f : A -> Q) (l : list A) :
  (forall x, f x == 0) -> Qsum (map f l) == 0.
Proof.
  intros Hf. unfold Qsum. induction l as [|x l IH]; cbn [map foldr]; [reflexivity|].
  rewrite Hf, IH. ring.
Qed.

Lemma best_match_from (query_word : string) (words : list string)
    (b : Q) (m : option string) :
  0 <= b ->
  fst (fold_left
         (fun '(best_match_score, best) text_word =>
            let s := word_score ratio query_word text_word in
            if Qltb best_match_score s then (s, Some text_word)
            else (best_match_score, best))
         words (b, m))
  == Qmax b (Qmax_list (map (word_score ratio query_word) words)).
Proof.
  unfold Qmax_list.
  revert b m. induction words as [|w words IH]; intros b m Hb; cbn [fold_left map foldr fst].
  - symmetry. by apply Q.max_l.
  - destruct (Qltb b (word_score ratio query_word w)) eqn:Hcmp.
    + apply Qltb_lt in Hcmp. rewrite IH by (eapply Qle_trans; [apply Hb | by apply Qlt_le_weak]).
      rewrite Q.max_assoc.
      rewrite (Q.max_r b (word_score ratio query_word w)) by (by apply Qlt_le_weak).
      reflexivity.
    + apply Qltb_ge in Hcmp. rewrite IH by done. rewrite Q.max_assoc.
      rewrite (Q.max_l b (word_score ratio query_word w)) by done. reflexivity.
Qed.

Lemma best_match_spec (query_word : string) (words : list string) :
  fst (best_match ratio query_word words) == spec_best ratio query_word words.
Proof.
  unfold best_match, spec_best. rewrite best_match_from by apply Qle_refl.
  apply Q.max_r, Qmax_list_nonneg.
Qed.

Lemma total_score_from (query_words words : list string) (t : Q) (ms : list string) :
  fst (fold_left
         (fun '(total_score, matches) query_word =>
            let '(best_match_score, best) := best_match ratio query_word words in
            if Qltb 0 best_match_score
            then (total_score + best_match_score, matches ++ option_list best)
            else (total_score, matches))
         query_words (t, ms))
  == t + Qsum (map (fun query_word => spec_best ratio query_word words) query_words).
Proof.
  unfold Qsum.
  revert t ms. induction query_words as [|qw qws IH]; intros t ms;
    cbn [fold_left map foldr fst].
  - ring.
  - pose proof (best_match_spec qw words) as Hbest.
    destruct (best_match ratio qw words) as [b best]. cbn [fst] in Hbest.
    destruct (Qltb 0 b) eqn:Hpos; rewrite IH.
    + rewrite Hbest. ring.
    + apply Qltb_ge in Hpos.
      assert (Hzero : spec_best ratio qw words == 0).
      { apply Qle_antisym; [by rewrite <- Hbest | apply Qmax_list_nonneg]. }
      rewrite Hzero. ring.
Qed.

Lemma spec_similarity_no_words (query_words : list string) (text : string) :
  extract_keywords text = [] -> spec_similarity ratio query_words text == 0.
Proof.
  intros Hnone. unfold spec_similarity. rewrite Hnone.
  rewrite Qsum_zeros by (intros; reflexivity).
  unfold Qdiv. ring.
Qed.

Lemma Qsum_nonneg (l : list Q) : Forall (Qle 0) l -> 0 <= Qsum l.
Proof.
  unfold Qsum. induction 1 as [|x l Hx _ IH]; cbn [foldr]; [apply Qle_refl|].
  pose proof (Qplus_le_compat 0 x 0 _ Hx IH) as Hsum.
  by rewrite Qplus_0_l in Hsum.
Qed.

Lemma spec_similarity_nonneg (query_words : list string) (text : string) :
  0 <= spec_similarity ratio query_words text.
Proof.
  unfold spec_similarity, Qdiv. apply Qmult_le_0_compat.
  - apply Qsum_nonneg, Forall_map, Forall_forall. intros qw _. apply Qmax_list_nonneg.
  - apply Qinv_le_0_compat. unfold Qle. cbn. lia.
Qed.

Lemma calculate_text_similarity_spec (query_words : list string) (text : string) :
  fst (calculate_text_similarity ratio query_words text)
  == spec_similarity ratio query_words text.
Proof.
  unfold calculate_text_similarity.
  destruct (is_empty text) eqn:Hempty; cbn [orb].
  { destruct text; [|done]. cbn. symmetry. by apply spec_similarity_no_words. }
  case_bool_decide as Hq.
  { subst. cbn. reflexivity. }
  case_bool_decide as Hw.
  { cbn. symmetry. by apply spec_similarity_no_words. }
  pose proof (total_score_from query_words (extract_keywords text) 0 []) as Htotal.
  destruct (fold_left _ query_words (0, [])) as [total matches].
  cbn in *. unfold spec_similarity. rewrite Htotal. field.
  intros Hlen. apply Hq. destruct query_words; [done|]. discriminate.
Qed.

Lemma score_fields_from (query_words : list string) (r : row)
    (fw : list (field * Q)) (t : Q) (ms : list string) (sn : list (string * string)) :
  let result :=
    fold_left
      (fun '(total_score, matched, snips) '(f, weight) =>
         let value := field_value r f in
         if is_empty value then (total_score, matched, snips)
         else
           let similarity := fst (calculate_text_similarity ratio query_words value) in
           if Qltb 0 similarity
           then (total_score + similarity * weight,
                 matched ++ [field_name f],
                 if is_content_field f
                 then snips ++ [(field_name f, extract_snippet value query_words 200)]
                 else snips)
           else (total_score, matched, snips))
      fw (t, ms, sn) in
  result.1.1
  == t + Qsum (map (fun '(f, weight) =>
                      spec_similarity ratio query_words (field_value r f) * weight) fw)
  /\ result.1.2
     = ms ++ map field_name
               (List.filter
                  (fun f => Qltb 0 (spec_similarity ratio query_words (field_value r f)))
                  (map fst fw)).
Proof.
  unfold Qsum.
  revert t ms sn. induction fw as [|[f weight] fw IH]; intros t ms sn;
    cbn [fold_left map foldr fst snd List.filter].
  - split; [ring | by rewrite app_nil_r].
  - pose proof (calculate_text_similarity_spec query_words (field_value r f)) as Hsim.
    destruct (is_empty (field_value r f)) eqn:Hempty.
    + assert (Hzero : spec_similarity ratio query_words (field_value r f) == 0).
      { apply spec_similarity_no_words. by destruct (field_value r f). }
      rewrite (Qltb_proper 0 _ 0 Hzero). cbn.
      destruct (IH t ms sn) as [IHt IHm]. split; [|done].
      rewrite IHt, Hzero. ring.
    + rewrite <- (Qltb_proper 0 _ _ Hsim).
      destruct (Qltb 0 (calculate_text_similarity ratio query_words (field_value r f)).1)
        eqn:Hpos.
      * edestruct IH as [IHt IHm]. split.
        -- rewrite IHt, Hsim. ring.
        -- rewrite IHm. cbn. by rewrite <- app_assoc.
      * destruct (IH t ms sn) as [IHt IHm]. split; [|done].
        apply Qltb_ge in Hpos. rewrite IHt.
        assert (Hzero : spec_similarity ratio query_words (field_value r f) == 0).
        { apply Qle_antisym; [by rewrite <- Hsim | apply spec_similarity_nonneg]. }
        rewrite Hzero. ring.
Qed.

Lemma word_score_cases (query_word text_word : string) :
  (query_word = text_word -> word_score ratio query_word text_word = 1)
  /\ (query_word <> text_word ->
      contains query_word text_word = true \/ contains text_word query_word = true ->
      word_score ratio query_word text_word = 0.8)
  /\ (query_word <> text_word ->
      contains query_word text_word = false ->
      contains text_word query_word = false ->
      (ratio query_word text_word < 0.6 -> word_score ratio query_word text_word = 0)
      /\ (0.6 <= ratio query_word text_word ->
          word_score ratio query_word text_word = ratio query_word text_word)).
Proof.
  unfold word_score. split; [|split].
  - intros ->. by rewrite String.eqb_refl.
  - intros Hne Hsub. apply String.eqb_neq in Hne. rewrite Hne.
    destruct Hsub as [-> | ->]; [done|]. by rewrite orb_true_r.
  - intros Hne -> ->. apply String.eqb_neq in Hne. rewrite Hne. cbn [orb].
    split; intros Hr.
    + apply Qltb_lt in Hr. by rewrite Hr.
    + apply Qltb_ge in Hr. by rewrite Hr.
Qed.

Lemma field_name_inj (f g : field) : field_name f = field_name g -> f = g.
Proof. by destruct f, g. Qed.

Lemma spec_matched_iff (query_words : list string) (r : row) (f : field) :
  field_name f ∈ spec_matched ratio query_words r
  <-> 0 < spec_similarity ratio query_words (field_value r f).
Proof.
  unfold spec_matched. rewrite list_elem_of_fmap. split.
  - intros (g & Hname & Hin). apply field_name_inj in Hname as <-.
    apply list_elem_of_In, filter_In in Hin as [_ Hpos]. by apply Qltb_lt.
  - intros Hpos. exists f. split; [done|].
    apply list_elem_of_In, filter_In. split; [|by apply Qltb_lt].
    destruct f; cbn; auto 10.
Qed.

Lemma score_fields_spec (query_words : list string) (r : row) :
  (score_fields query_words r).1.1 == spec_relevance ratio query_words r
  /\ (score_fields query_words r).1.2 = spec_matched ratio query_words r.
Proof.
  destruct (score_fields_from query_words r fields_weights 0 [] []) as [Ht Hm].
  split.
  - unfold Search.score_fields. rewrite Ht. unfold spec_relevance. ring.
  - exact Hm.
Qed.

(** C4. The scoring formula.  A text word scores 1 against an equal keyword,
    0.8 when one contains the other, and otherwise the edit-similarity
    ratio, taken as 0 below 0.6; the best score of a keyword is the maximum
    over the field's words; the field similarity is the sum of the best
    scores over the number of keywords; the total before boost and penalty
    is the sum over the five fields of similarity times weight; and a field
    is among the matched fields exactly when its similarity is strictly
    positive.  The result of [score_repository] carries these matched
    fields, and its score is that total plus the boost, times 0.7 for an
    archived record. *)
Theorem fuzzy_scoring_formula (r : row) (query_words words : list string)
    (query_word text_word text : string) :
  ((query_word = text_word -> word_score ratio query_word text_word = 1)
   /\ (query_word <> text_word ->
       contains query_word text_word = true \/ contains text_word query_word = true ->
       word_score ratio query_word text_word = 0.8)
   /\ (query_word <> text_word ->
       contains query_word text_word = false ->
       contains text_word query_word = false ->
       (ratio query_word text_word < 0.6 -> word_score ratio query_word text_word = 0)
       /\ (0.6 <= ratio query_word text_word ->
           word_score ratio query_word text_word = ratio query_word text_word)))
  /\ fst (best_match ratio query_word words)
     == Qmax_list (map (word_score ratio query_word) words)
  /\ fst (calculate_text_similarity ratio query_words text)
     == Qsum (map (fun qw => spec_best ratio qw (extract_keywords text)) query_words)
        / inject_Z (Z.of_nat (length query_words))
  /\ (score_fields query_words r).1.1
     == spec_similarity ratio query_words (name (content r)) * 3
        + spec_similarity ratio query_words (full_name (content r)) * 2.5
        + spec_similarity ratio query_words (description (content r)) * 2
        + spec_similarity ratio query_words (readme_content (content r)) * 1.5
        + spec_similarity ratio query_words (join " " (topics (content r))) * 2.5
  /\ (forall f, field_name f ∈ (score_fields query_words r).1.2
                <-> 0 < spec_similarity ratio query_words (field_value r f))
  /\ (forall query result b,
        query_words = extract_keywords (normalize_query query) ->
        query_words <> [] ->
        popularity_boost (stars (content r)) = Ok b ->
        score_repository r query = Ok result ->
        matched_fields result = spec_matched ratio query_words r
        /\ score result
           == (if archived (content r) then 0.7 else 1)
              * (spec_relevance ratio query_words r + b)).
Proof.
  destruct (score_fields_spec query_words r) as [Htotal Hmatched].
  split; [apply word_score_cases|].
  split; [apply best_match_spec|].
  split; [apply calculate_text_similarity_spec|].
  split; [|split].
  - rewrite Htotal. unfold spec_relevance, Qsum. cbn [fields_weights map foldr field_value].
    ring.
  - intros f. rewrite Hmatched. apply spec_matched_iff.
  - intros query result b -> Hsome Hboost Hresult.
    rewrite (score_repository_scored r query b Hsome Hboost) in Hresult.
    injection Hresult as <-. cbn [matched_fields score]. split; [done|].
    unfold Search.relevance. rewrite <- Htotal.
    destruct (archived (content r)); ring.
Qed.

(** *** Browse mode *)




Lemma sql_limit_length {A} (k : Z) (l : list A) :
  (0 <= k)%Z -> length (sql_limit k l) = Nat.min (Z.to_nat k) (length l).
Proof.
  intros Hk. unfold sql_limit.
  destruct (Z.ltb_spec k 0) as [Hneg|_]; [lia|]. apply length_take.
Qed.


(** *** The full-text query that fails *)

Lemma score_repository_raises (r : row) (query : string) (e : exn) :
  score_repository r query = Raise e -> e = ValueError.
Proof.
  unfold Search.score_repository. case_bool_decide; [done|].
  destruct (Search.score_fields _ _ r) as [[total matched] snips].
  unfold Search.popularity_boost.
  destruct (stars (content r) + 1 <=? 0)%Z; cbn; [by intros [= <-] | done].
Qed.

Lemma score_repository_repo (r : row) (query : string) (result : SearchResult) :
  score_repository r query = Ok result -> repo result = r.
Proof.
  unfold Search.score_repository. case_bool_decide; [by intros [= <-]|].
  destruct (Search.score_fields _ _ r) as [[total matched] snips].
  destruct (Search.popularity_boost _ _); cbn; [by intros [= <-] | done].
Qed.

Lemma for_each_raises {A S} (P : exn -> Prop) (f : S -> A -> res S)
    (l : list A) (s : S) (e : exn) :
  (forall s x e, f s x = Raise e -> P e) ->
  for_each f l s = Raise e -> P e.
Proof.
  intros Hf. revert s. induction l as [|x l IH]; intros s; cbn; [done|].
  destruct (f s x) as [s'|e'] eqn:Hstep; cbn.
  - apply IH.
  - intros [= <-]. by eapply Hf.
Qed.

Lemma score_and_keep_raises (query : string) (min_score : Q)
    (results : list SearchResult) (r : row) (e : exn) :
  score_and_keep ratio log10 query min_score results r = Raise e -> e = ValueError.
Proof.
  unfold score_and_keep.
  destruct (score_repository r query) as [result|e'] eqn:Hscore; cbn; [done|].
  intros [= <-]. by eapply score_repository_raises.
Qed.

Lemma fuzzy_pass_raises (query : string) (min_score : Q)
    (results : list SearchResult) (d : db) (e : exn) :
  fuzzy_pass ratio log10 query min_score results d = Raise e -> e = ValueError.
Proof.
  unfold fuzzy_pass. apply (for_each_raises (fun e => e = ValueError)). intros s x e'.
  destruct (existsb _ s); [done|]. apply score_and_keep_raises.
Qed.

(** With the primary key unique, the second loop skips no row. *)
Lemma fuzzy_pass_scores_all (query : string) (min_score : Q)
    (rows : list row) (results : list SearchResult) :
  NoDup (map (fun r => full_name (content r)) rows) ->
  (forall x, x ∈ results ->
             full_name (content (repo x)) ∉ map (fun r => full_name (content r)) rows) ->
  for_each
    (fun results r =>
       if existsb (fun x => String.eqb (full_name (content (repo x)))
                                       (full_name (content r))) results
       then Ok results
       else score_and_keep ratio log10 query min_score results r)
    rows results
  = for_each (score_and_keep ratio log10 query min_score) rows results.
Proof.
  revert results. induction rows as [|r rows IH]; intros results Hnodup Hfresh; [done|].
  cbn [for_each map] in *. apply NoDup_cons in Hnodup as [Hr Hnodup].
  destruct (existsb _ results) eqn:Hseen.
  { apply existsb_exists in Hseen as (x & Hx & Heq).
    apply String.eqb_eq in Heq. apply list_elem_of_In in Hx.
    exfalso. apply (Hfresh x Hx). rewrite Heq. apply elem_of_cons. by left. }
  destruct (score_and_keep ratio log10 query min_score results r)
    as [results'|e] eqn:Hkeep; cbn [mbind res_bind]; [|done].
  apply IH; [done|].
  intros x Hx. unfold score_and_keep in Hkeep.
  destruct (score_repository r query) as [result|e] eqn:Hscore; [|done].
  cbn in Hkeep. injection Hkeep as <-.
  assert (Hcases : x ∈ results \/ x = result).
  { destruct (Qle_bool min_score (score result)); [|by left].
    apply elem_of_app in Hx as [Hx|Hx]; [by left|].
    apply list_elem_of_singleton in Hx. by right. }
  destruct Hcases as [Hold| ->].
  - intros Hin. apply (Hfresh x Hold). apply elem_of_cons. by right.
  - by rewrite (score_repository_repo _ _ _ Hscore).
Qed.


(** C8. What [search] does when the full-text query of a query with
    keywords raises [OperationalError].  The error itself is caught, but
    the fallback to the fuzzy-only path stands behind the gate
    [len(results) < limit // 2]: for a [limit] below 2 the gate is closed
    and [search] returns no result at all, whatever the store holds.  For a
    [limit] of at least 2 it returns the fuzzy-only result on a database
    that holds the table, and on a database without it the query of the
    second loop raises [OperationalError], which nothing catches. *)
Theorem fts_failure_fallback_gated (query : string) (limit : Z) (min_score : Q)
    (conn : Engine.connection) :
  is_empty (strip query) = false ->
  extract_keywords (normalize_query query) <> [] ->
  match conn with
  | Some d =>
      fts_match (join " OR " (extract_keywords (normalize_query query))) (repo_fts d) = None
  | None => True
  end ->
  ((limit < 2)%Z ->
   Engine.search ratio log10 fts_match query limit min_score conn = Ok [])
  /\ ((2 <= limit)%Z ->
      match conn with
      | Some d =>
          unique_names d ->
          Engine.search ratio log10 fts_match query limit min_score conn
          = fuzzy_only ratio log10 query limit min_score d
      | None =>
          Engine.search ratio log10 fts_match query limit min_score conn
          = Raise OperationalError
      end).
Proof.
  intros Hstrip Hsome Hfts. unfold Engine.search.
  rewrite Hstrip, bool_decide_eq_false_2 by done.
  assert (Hfirst : match conn with
                   | Some d =>
                       match fts_match (join " OR " (extract_keywords (normalize_query query)))
                               (repo_fts d) with
                       | Some ids =>
                           for_each (score_and_keep ratio log10 query min_score)
                             (fts_rows ids d) []
                       | None => Ok []
                       end
                   | None => Ok []
                   end = Ok []).
  { destruct conn as [d|]; [by rewrite Hfts | done]. }
  rewrite Hfirst. cbn [mbind res_bind]. clear Hfirst.
  split.
  - intros Hlimit.
    assert (Hgate : (Z.of_nat (length (@nil SearchResult)) <? limit `div` 2)%Z = false).
    { apply Z.ltb_ge. cbn [length Z.of_nat].
      apply Z.lt_succ_r, Z.div_lt_upper_bound; lia. }
    rewrite Hgate. cbn [mbind res_bind sort_desc foldr]. unfold py_take.
    rewrite !take_nil. by destruct (0 <=? limit)%Z.
  - intros Hlimit.
    assert (Hgate : (Z.of_nat (length (@nil SearchResult)) <? limit `div` 2)%Z = true).
    { apply Z.ltb_lt. cbn. apply Z.div_str_pos. lia. }
    rewrite Hgate. destruct conn as [d|]; [|done].
    intros Hkey. unfold fuzzy_pass, fuzzy_only.
    rewrite fuzzy_pass_scores_all; [done| |].
    + unfold order_by_stars. by rewrite sort_desc_perm.
    + intros x Hx. by apply not_elem_of_nil in Hx.
Qed.

(** *** Suggestions *)

(** C9. A partial query whose normalized form is shorter than 2 characters
    gets no suggestion, whatever the store holds and whatever [limit] is;
    and for a [limit] that is not negative the suggestions are without
    repetition and at most [limit] many. *)
Theorem suggestions_guard (query : string) (limit : Z) (d : db) :
  (0 <= limit)%Z ->
  ((len (normalize_query query) < 2)%nat ->
   forall limit' d', get_suggestions json_dumps query limit' d' = [])
  /\ NoDup (get_suggestions json_dumps query limit d)
  /\ (length (get_suggestions json_dumps query limit d) <= Z.to_nat limit)%nat.
Proof.
  intros Hlimit. unfold get_suggestions. split; [|split].
  - intros Hshort limit' d'. apply Nat.ltb_lt in Hshort. by rewrite Hshort.
  - destruct (len (normalize_query query) <? 2)%nat; [apply NoDup_nil_2|].
    unfold py_take. destruct (Z.leb_spec 0 limit) as [_|Hneg]; [|lia].
    eapply sublist_NoDup; [|apply sublist_take]. apply NoDup_elements.
  - destruct (len (normalize_query query) <? 2)%nat; [cbn; lia|].
    unfold py_take. destruct (Z.leb_spec 0 limit) as [_|Hneg]; [|lia].
    rewrite length_take. lia.
Qed.

End SearchFacts.

(** * Properties of the text functions *)

Section TextFacts.
Import Text.

(** *** Characters *)

Lemma lower_char_idem (c : ascii) : lower_char (lower_char c) = lower_char c.
Proof. by destruct c as [[] [] [] [] [] [] [] []]. Qed.

Lemma is_space_lower_char (c : ascii) : is_space (lower_char c) = is_space c.
Proof. by destruct c as [[] [] [] [] [] [] [] []]. Qed.

Lemma is_word_lower_char (c : ascii) : is_word (lower_char c) = is_word c.
Proof. by destruct c as [[] [] [] [] [] [] [] []]. Qed.

Lemma is_upper_lower_char (c : ascii) : is_upper (lower_char c) = false.
Proof. by destruct c as [[] [] [] [] [] [] [] []]. Qed.

Lemma space_not_word (c : ascii) : is_space c = true -> is_word c = false.
Proof. by destruct c as [[] [] [] [] [] [] [] []]. Qed.

Lemma lower_char_not_upper (c : ascii) : is_upper c = false -> lower_char c = c.
Proof. unfold lower_char. by intros ->. Qed.

(** *** Appending and reversing *)

Lemma str_append_cons (c : ascii) (s t : string) :
  String c s +:+ t = String c (s +:+ t).
Proof. reflexivity. Qed.

Lemma str_append_empty_r (s : string) : s +:+ "" = s.
Proof. induction s as [|c s IH]; [done|]. by rewrite str_append_cons, IH. Qed.

Lemma str_append_assoc (a b c : string) : (a +:+ b) +:+ c = a +:+ (b +:+ c).
Proof. induction a as [|x a IH]; [done|]. by rewrite !str_append_cons, IH. Qed.

Lemma str_length_append (a b : string) : len (a +:+ b) = (len a + len b)%nat.
Proof.
  unfold len. induction a as [|x a IH]; [done|]. rewrite str_append_cons. cbn. by rewrite IH.
Qed.

Lemma str_rev_onto_app (s acc : string) : rev_onto s acc = rev s +:+ acc.
Proof.
  unfold rev. revert acc. induction s as [|c s IH]; intros acc; cbn; [done|].
  rewrite (IH (String c acc)), (IH (String c "")). by rewrite str_append_assoc.
Qed.

Lemma str_rev_cons (c : ascii) (s : string) : rev (String c s) = rev s +:+ String c "".
Proof. unfold rev at 1. cbn. apply str_rev_onto_app. Qed.

Lemma str_rev_app (a b : string) : rev (a +:+ b) = rev b +:+ rev a.
Proof.
  induction a as [|c a IH].
  - by rewrite str_append_empty_r.
  - by rewrite str_append_cons, !str_rev_cons, IH, str_append_assoc.
Qed.

Lemma str_rev_involutive (s : string) : rev (rev s) = s.
Proof.
  induction s as [|c s IH]; [done|]. by rewrite str_rev_cons, str_rev_app, IH.
Qed.

Lemma str_length_rev (s : string) : len (rev s) = len s.
Proof.
  induction s as [|c s IH]; [done|].
  rewrite str_rev_cons, str_length_append, IH. unfold len. cbn. apply Nat.add_1_r.
Qed.

Lemma all_chars_app (p : ascii -> bool) (a b : string) :
  all_chars p (a +:+ b) = all_chars p a && all_chars p b.
Proof.
  induction a as [|c a IH]; [done|]. rewrite str_append_cons. cbn. by rewrite IH, andb_assoc.
Qed.

Lemma all_chars_rev (p : ascii -> bool) (s : string) :
  all_chars p (rev s) = all_chars p s.
Proof.
  induction s as [|c s IH]; [done|].
  rewrite str_rev_cons, all_chars_app, IH. cbn. rewrite andb_true_r. apply andb_comm.
Qed.

Lemma all_chars_impl (p q : ascii -> bool) (s : string) :
  (forall c, p c = true -> q c = true) ->
  all_chars p s = true -> all_chars q s = true.
Proof.
  intros Hpq. induction s as [|c s IH]; cbn; [done|].
  intros [Hc Hs]%andb_true_iff. by rewrite (Hpq c Hc), IH.
Qed.

(** *** [strip] *)

Lemma drop_spaces_decompose (s : string) :
  exists a, s = a +:+ drop_spaces s /\ all_chars is_space a = true.
Proof.
  induction s as [|c s (a & Hs & Ha)]; [by exists ""|]. cbn.
  destruct (is_space c) eqn:Hc; [|by exists ""].
  exists (String c a). rewrite str_append_cons. cbn. by rewrite <- Hs, Hc, Ha.
Qed.

Lemma drop_spaces_starts (s : string) : starts_space (drop_spaces s) = false.
Proof.
  induction s as [|c s IH]; [done|]. cbn.
  destruct (is_space c) eqn:Hc; [done|]. cbn. done.
Qed.

Lemma drop_spaces_fixed (s : string) : starts_space s = false -> drop_spaces s = s.
Proof. destruct s as [|c s]; [done|]. cbn. by intros ->. Qed.

Lemma drop_spaces_all_space (s : string) :
  all_chars is_space s = true -> drop_spaces s = "".
Proof.
  induction s as [|c s IH]; [done|]. cbn. intros [Hc Hs]%andb_true_iff.
  by rewrite Hc, IH.
Qed.

Lemma strip_decompose (s : string) :
  exists a b, s = a +:+ strip s +:+ b
              /\ all_chars is_space a = true /\ all_chars is_space b = true.
Proof.
  destruct (drop_spaces_decompose s) as (a & Hs & Ha).
  destruct (drop_spaces_decompose (rev (drop_spaces s))) as (b & Hr & Hb).
  exists a, (rev b). split; [|split; [done | by rewrite all_chars_rev]].
  unfold strip. rewrite <- str_rev_app, <- Hr, str_rev_involutive. done.
Qed.

Lemma strip_starts (s : string) : starts_space (strip s) = false.
Proof.
  destruct (drop_spaces_decompose (rev (drop_spaces s))) as (b & Hr & Hb).
  pose proof (drop_spaces_starts s) as Hstart.
  assert (Hd : drop_spaces s = strip s +:+ rev b).
  { unfold strip. by rewrite <- str_rev_app, <- Hr, str_rev_involutive. }
  destruct (strip s) as [|c t]; [done|]. rewrite Hd in Hstart. done.
Qed.

Lemma strip_ends (s : string) : ends_space (strip s) = false.
Proof.
  unfold ends_space, strip. rewrite str_rev_involutive. apply drop_spaces_starts.
Qed.

Lemma strip_fixed (s : string) :
  starts_space s = false -> ends_space s = false -> strip s = s.
Proof.
  intros Hstart Hend. unfold strip.
  rewrite (drop_spaces_fixed s Hstart), (drop_spaces_fixed (rev s) Hend).
  apply str_rev_involutive.
Qed.

Lemma strip_blank (s : string) : is_empty (strip s) = all_chars is_space s.
Proof.
  destruct (all_chars is_space s) eqn:Hall.
  - unfold strip. by rewrite (drop_spaces_all_space s Hall).
  - destruct (strip_decompose s) as (a & b & Hs & Ha & Hb).
    destruct (strip s) as [|c t]; [|done].
    rewrite Hs, !all_chars_app, Ha, Hb in Hall. done.
Qed.

(** *** [lower], the two substitutions *)

Lemma lower_idem (s : string) : lower (lower s) = lower s.
Proof. induction s as [|c s IH]; cbn; [done|]. by rewrite lower_char_idem, IH. Qed.

Lemma length_lower (s : string) : len (lower s) = len s.
Proof. unfold len. induction s as [|c s IH]; cbn; [done | by rewrite IH]. Qed.

Lemma lower_not_upper (s : string) :
  all_chars (fun c => negb (is_upper c)) (lower s) = true.
Proof.
  induction s as [|c s IH]; cbn; [done|]. by rewrite is_upper_lower_char, IH.
Qed.

Lemma lower_fixed (s : string) :
  all_chars (fun c => negb (is_upper c)) s = true -> lower s = s.
Proof.
  induction s as [|c s IH]; cbn; [done|]. intros [Hc Hs]%andb_true_iff.
  apply negb_true_iff in Hc. by rewrite (lower_char_not_upper c Hc), IH.
Qed.

Lemma all_space_lower (s : string) :
  all_chars is_space (lower s) = all_chars is_space s.
Proof.
  induction s as [|c s IH]; cbn; [done|]. by rewrite is_space_lower_char, IH.
Qed.

Lemma punct_to_space_chars (s : string) :
  all_chars (fun c => negb (is_upper c)) s = true ->
  all_chars (fun c => is_word c && negb (is_upper c) || is_space c)
            (punct_to_space s) = true.
Proof.
  induction s as [|c s IH]; cbn; [done|]. intros [Hc Hs]%andb_true_iff.
  rewrite (IH Hs), andb_true_r.
  destruct (is_word c) eqn:Hw; cbn; [by rewrite Hw, Hc|].
  destruct (is_space c) eqn:Hsp; [by rewrite Hsp, orb_true_r | done].
Qed.

Lemma punct_to_space_fixed (s : string) :
  all_chars (fun c => is_word c || is_space c) s = true -> punct_to_space s = s.
Proof.
  induction s as [|c s IH]; cbn; [done|]. intros [Hc Hs]%andb_true_iff.
  by rewrite Hc, IH.
Qed.

(** *** [collapse_spaces] *)

Lemma collapse_spaces_chars (b : bool) (s : string) :
  all_chars (fun c => is_word c && negb (is_upper c) || is_space c) s = true ->
  all_chars is_normal_char (collapse_spaces b s) = true.
Proof.
  revert b. induction s as [|c s IH]; intros b; cbn; [done|].
  intros [Hc Hs]%andb_true_iff.
  destruct (is_space c) eqn:Hsp.
  - destruct b; cbn; by rewrite ?IH.
  - cbn. rewrite (IH false Hs), andb_true_r. unfold is_normal_char.
    rewrite orb_false_r in Hc. by rewrite Hc.
Qed.

Lemma collapse_spaces_well_spaced (b : bool) (s : string) :
  well_spaced b (collapse_spaces b s) = true.
Proof.
  revert b. induction s as [|c s IH]; intros b; cbn; [done|].
  destruct (is_space c) eqn:Hsp.
  - destruct b; [apply IH|]. cbn. apply IH.
  - cbn. rewrite Hsp. apply IH.
Qed.

Lemma collapse_spaces_fixed (b : bool) (s : string) :
  well_spaced b s = true -> collapse_spaces b s = s.
Proof.
  revert b. induction s as [|c s IH]; intros b; cbn; [done|].
  destruct (is_space c) eqn:Hsp.
  - intros [[Hc Hb]%andb_true_iff Hs]%andb_true_iff.
    apply negb_true_iff in Hb as ->. apply Ascii.eqb_eq in Hc as ->.
    by rewrite (IH true Hs).
  - intros Hs. by rewrite (IH false Hs).
Qed.

Lemma well_spaced_weaken (b : bool) (s : string) :
  well_spaced b s = true -> well_spaced false s = true.
Proof.
  destruct s as [|c s]; [done|]. cbn. destruct (is_space c); [|done].
  intros [[Hc _]%andb_true_iff Hs]%andb_true_iff. by rewrite Hc, Hs.
Qed.

Lemma well_spaced_prefix (b : bool) (x y : string) :
  well_spaced b (x +:+ y) = true -> well_spaced b x = true.
Proof.
  revert b. induction x as [|c x IH]; intros b; [done|]. rewrite str_append_cons. cbn.
  destruct (is_space c); [|apply IH].
  intros [Hc Hs]%andb_true_iff. rewrite Hc. by apply IH.
Qed.

Lemma well_spaced_suffix (b : bool) (x y : string) :
  well_spaced b (x +:+ y) = true -> well_spaced false y = true.
Proof.
  revert b. induction x as [|c x IH]; intros b; [apply well_spaced_weaken|].
  rewrite str_append_cons. cbn.
  destruct (is_space c); [|apply IH].
  intros [_ Hs]%andb_true_iff. by eapply IH.
Qed.

End TextFacts.

(** * Properties of query normalization and keyword extraction *)

Section QueryFacts.
Import Text Search.

Lemma normal_char_not_upper (c : ascii) : is_normal_char c = true -> is_upper c = false.
Proof. by destruct c as [[] [] [] [] [] [] [] []]. Qed.

Lemma normal_char_word_or_space (c : ascii) :
  is_normal_char c = true -> is_word c || is_space c = true.
Proof. by destruct c as [[] [] [] [] [] [] [] []]. Qed.

Lemma normalize_query_normal (query : string) : normal (normalize_query query) = true.
Proof.
  unfold normalize_query, normal.
  set (y := collapse_spaces false (punct_to_space (lower query))).
  assert (Hchars : all_chars is_normal_char y = true).
  { apply collapse_spaces_chars, punct_to_space_chars, lower_not_upper. }
  pose proof (collapse_spaces_well_spaced false (punct_to_space (lower query))) as Hspaced.
  fold y in Hspaced.
  destruct (strip_decompose y) as (a & b & Hy & Ha & Hb).
  rewrite strip_starts, strip_ends. cbn [negb]. rewrite !andb_true_r.
  rewrite Hy in Hchars, Hspaced.
  rewrite !all_chars_app in Hchars.
  apply andb_true_iff in Hchars as [_ [Hchars _]%andb_true_iff].
  apply well_spaced_suffix, well_spaced_prefix in Hspaced.
  by rewrite Hchars, Hspaced.
Qed.

Lemma normalize_query_fixed (s : string) : normal s = true -> normalize_query s = s.
Proof.
  unfold normal, normalize_query.
  intros [[[Hchars Hspaced]%andb_true_iff Hstart%negb_true_iff]%andb_true_iff
            Hend%negb_true_iff]%andb_true_iff.
  rewrite lower_fixed.
  2:{ eapply all_chars_impl; [|exact Hchars].
      intros c Hc. by rewrite (normal_char_not_upper c Hc). }
  rewrite punct_to_space_fixed.
  2:{ eapply all_chars_impl; [|exact Hchars]. apply normal_char_word_or_space. }
  rewrite (collapse_spaces_fixed false s Hspaced). by apply strip_fixed.
Qed.

(** *** The words of a text *)

Lemma length_flush_word (cur : string) (p : ascii -> bool) :
  all_chars p cur = true ->
  Forall (fun w => (3 <= len w)%nat /\ all_chars p w = true) (flush_word cur).
Proof.
  intros Hcur. unfold flush_word.
  destruct (Nat.leb_spec 3 (len cur)) as [Hlen|_]; [|constructor].
  constructor; [|constructor]. by rewrite str_length_rev, all_chars_rev.
Qed.

Lemma find_words_shape (cur s : string) :
  all_chars (fun c => is_word c && negb (is_upper c)) cur = true ->
  all_chars (fun c => negb (is_upper c)) s = true ->
  Forall (fun w => (3 <= len w)%nat
                   /\ all_chars (fun c => is_word c && negb (is_upper c)) w = true)
         (find_words cur s).
Proof.
  revert cur. induction s as [|c s IH]; intros cur Hcur; cbn.
  - intros _. by apply length_flush_word.
  - intros [Hc Hs]%andb_true_iff. destruct (is_word c) eqn:Hw.
    + apply IH; [|done]. cbn. by rewrite Hw, Hc.
    + apply Forall_app. split; [by apply length_flush_word | by apply IH].
Qed.

Lemma find_words_punct (cur s : string) :
  find_words cur (punct_to_space s) = find_words cur s.
Proof.
  revert cur. induction s as [|c s IH]; intros cur; [done|].
  cbn [punct_to_space find_words].
  destruct (is_word c) eqn:Hw; cbn [orb]; [by rewrite Hw, IH|].
  destruct (is_space c) eqn:Hsp; [by rewrite Hw, IH|].
  replace (is_word " ") with false by done. by rewrite IH.
Qed.

Lemma find_words_collapse (s : string) :
  (forall cur, find_words cur (collapse_spaces false s) = find_words cur s)
  /\ find_words "" (collapse_spaces true s) = find_words "" s.
Proof.
  induction s as [|c s [IHf IHt]]; [done|]. cbn.
  destruct (is_space c) eqn:Hsp.
  - rewrite (space_not_word c Hsp). split.
    + intros cur. cbn. by rewrite IHt.
    + by rewrite IHt.
  - split; [intros cur|]; cbn; destruct (is_word c); by rewrite IHf.
Qed.

Lemma find_words_spaces (a : string) :
  all_chars is_space a = true -> find_words "" a = [].
Proof.
  induction a as [|c a IH]; [done|]. cbn. intros [Hc Ha]%andb_true_iff.
  by rewrite (space_not_word c Hc), (IH Ha).
Qed.

Lemma find_words_leading (a s : string) :
  all_chars is_space a = true -> find_words "" (a +:+ s) = find_words "" s.
Proof.
  induction a as [|c a IH]; [done|]. rewrite str_append_cons. cbn.
  intros [Hc Ha]%andb_true_iff. by rewrite (space_not_word c Hc), (IH Ha).
Qed.

Lemma find_words_trailing (cur s b : string) :
  all_chars is_space b = true -> find_words cur (s +:+ b) = find_words cur s.
Proof.
  intros Hb. revert cur. induction s as [|c s IH]; intros cur.
  - change ("" +:+ b) with b. destruct b as [|c b]; [done|].
    cbn [all_chars] in Hb. apply andb_true_iff in Hb as [Hc Hb].
    cbn [find_words].
    by rewrite (space_not_word c Hc), (find_words_spaces b Hb), app_nil_r.
  - rewrite str_append_cons. cbn. destruct (is_word c); by rewrite IH.
Qed.

Lemma find_words_strip (s : string) : find_words "" (strip s) = find_words "" s.
Proof.
  destruct (strip_decompose s) as (a & b & Hs & Ha & Hb).
  rewrite Hs at 2. by rewrite find_words_leading, find_words_trailing.
Qed.

Lemma find_words_normalize (query : string) :
  find_words "" (lower (normalize_query query)) = find_words "" (lower query).
Proof.
  rewrite lower_fixed.
  2:{ pose proof (normalize_query_normal query) as Hn. unfold normal in Hn.
      apply andb_true_iff in Hn as [[[Hchars _]%andb_true_iff _]%andb_true_iff _].
      eapply all_chars_impl; [|exact Hchars].
      intros c Hc. by rewrite (normal_char_not_upper c Hc). }
  unfold normalize_query. rewrite find_words_strip.
  destruct (find_words_collapse (punct_to_space (lower query))) as [-> _].
  apply find_words_punct.
Qed.

(** X1. The result of [normalize_query] is normal: lower-case word
    characters in words separated by single spaces, with no space at either
    end.  The normal strings are exactly the strings that [normalize_query]
    leaves as they are, so normalizing twice is normalizing once. *)
Theorem normalize_query_fixed_points (s : string) :
  normal (normalize_query s) = true
  /\ (normalize_query s = s <-> normal s = true)
  /\ normalize_query (normalize_query s) = normalize_query s.
Proof.
  split; [apply normalize_query_normal|]. split.
  - split; [|apply normalize_query_fixed].
    intros Hfixed. rewrite <- Hfixed. apply normalize_query_normal.
  - apply normalize_query_fixed, normalize_query_normal.
Qed.

(** X2. Every keyword that [extract_keywords] returns has at least 3
    characters, all of them lower-case letters, digits or underscores, and
    is not a stop word. *)
Theorem extract_keywords_shape (text : string) :
  Forall (fun w => (3 <= len w)%nat
                   /\ all_chars (fun c => is_word c && negb (is_upper c)) w = true
                   /\ is_stop_word w = false)
         (extract_keywords text).
Proof.
  unfold extract_keywords. destruct (is_empty text); [constructor|].
  apply List.Forall_forall. intros w [Hin Hstop]%filter_In.
  apply negb_true_iff in Hstop.
  pose proof (find_words_shape "" (lower text) eq_refl (lower_not_upper text)) as Hshape.
  rewrite List.Forall_forall in Hshape. destruct (Hshape w Hin) as [Hlen Hchars].
  done.
Qed.

Lemma extract_keywords_words (text : string) :
  extract_keywords text
  = List.filter (fun w => negb (is_stop_word w)) (find_words "" (lower text)).
Proof. unfold extract_keywords. by destruct text. Qed.

(** X3. Normalizing a text does not change its keywords: punctuation,
    case and the amount of whitespace are already ignored by
    [extract_keywords]. *)
Theorem extract_keywords_normalize (query : string) :
  extract_keywords (normalize_query query) = extract_keywords query.
Proof.
  rewrite (extract_keywords_words (normalize_query query)).
  rewrite (extract_keywords_words query).
  by rewrite find_words_normalize.
Qed.

Lemma blank_no_keywords (query : string) :
  is_empty (strip query) = true -> extract_keywords (normalize_query query) = [].
Proof.
  rewrite strip_blank, extract_keywords_words, find_words_normalize. intros Hblank.
  rewrite find_words_spaces; [done|]. by rewrite all_space_lower.
Qed.

End QueryFacts.

Section KeywordsOnly.
Import Text Search.

Variable ratio : string -> string -> Q.
Variable log10 : Z -> Q.
Variable fts_match : string -> list fts_doc -> option (list Z).

Lemma for_each_ext {A S} (f g : S -> A -> res S) (l : list A) (s : S) :
  (forall s x, f s x = g s x) -> for_each f l s = for_each g l s.
Proof.
  intros Hfg. revert s. induction l as [|x l IH]; intros s; cbn; [done|].
  rewrite Hfg. destruct (g s x); cbn; [apply IH | done].
Qed.

Lemma score_repository_ext (r : row) (query1 query2 : string) :
  extract_keywords (normalize_query query1) = extract_keywords (normalize_query query2) ->
  score_repository ratio log10 r query1 = score_repository ratio log10 r query2.
Proof. intros Hkw. unfold score_repository. by rewrite Hkw. Qed.

(** X4. [search] reads its query only through the keywords: two queries
    with the same keywords (such as a query and its upper-case, punctuated
    or re-spaced form) give the same result on every store, for every
    [limit] and [min_score]; and so does [score_repository] on every row. *)
Theorem search_keywords_only (query1 query2 : string) (limit : Z) (min_score : Q)
    (d : db) (r : row) :
  extract_keywords query1 = extract_keywords query2 ->
  search ratio log10 fts_match query1 limit min_score d
  = search ratio log10 fts_match query2 limit min_score d
  /\ score_repository ratio log10 r query1 = score_repository ratio log10 r query2.
Proof.
  intros Hkw.
  assert (Hnorm : extract_keywords (normalize_query query1)
                  = extract_keywords (normalize_query query2))
    by (by rewrite !extract_keywords_words, !find_words_normalize,
                   <- !extract_keywords_words).
  split; [|by apply score_repository_ext].
  assert (Hkeep : forall results row,
            score_and_keep ratio log10 query1 min_score results row
            = score_and_keep ratio log10 query2 min_score results row).
  { intros results row. unfold score_and_keep.
    by rewrite (score_repository_ext row query1 query2 Hnorm). }
  unfold search.
  destruct (is_empty (strip query1)) eqn:Hblank1;
    destruct (is_empty (strip query2)) eqn:Hblank2.
  - done.
  - by rewrite <- Hnorm, (blank_no_keywords query1 Hblank1).
  - by rewrite Hnorm, (blank_no_keywords query2 Hblank2).
  - rewrite Hnorm. case_bool_decide; [done|].
    assert (Hfts :
      match fts_match (join " OR " (extract_keywords (normalize_query query2))) (repo_fts d) with
      | Some ids => for_each (score_and_keep ratio log10 query1 min_score) (fts_rows ids d) []
      | None => Ok []
      end
      = match fts_match (join " OR " (extract_keywords (normalize_query query2))) (repo_fts d) with
        | Some ids => for_each (score_and_keep ratio log10 query2 min_score) (fts_rows ids d) []
        | None => Ok []
        end).
    { destruct (fts_match _ _); [|done]. by apply for_each_ext. }
    rewrite Hfts. clear Hfts. destruct (match fts_match _ _ with Some _ => _ | None => _ end)
      as [results|e]; [|reflexivity].
    cbn [mbind res_bind].
    assert (Hfuzzy : fuzzy_pass ratio log10 query1 min_score results d
                     = fuzzy_pass ratio log10 query2 min_score results d).
    { unfold fuzzy_pass. apply for_each_ext. intros acc row.
      destruct (existsb _ acc); [done | apply Hkeep]. }
    by rewrite Hfuzzy.
Qed.

End KeywordsOnly.

(** * Properties of snippets *)

Section SnippetFacts.
Import Text Search.

Lemma length_slice (i n : nat) (s : string) : (len (slice i n s) <= n)%nat.
Proof.
  unfold slice, len. revert i n. induction s as [|c s IH]; intros i n.
  - destruct i, n; cbn; lia.
  - destruct i as [|i]; [destruct n as [|n]|]; cbn; [lia | | apply IH].
    specialize (IH 0%nat n). lia.
Qed.

Lemma slice_all (n : nat) (s : string) : (len s <= n)%nat -> slice 0 n s = s.
Proof.
  unfold slice, len. revert n. induction s as [|c s IH]; intros n Hlen.
  - by destruct n.
  - destruct n as [|n]; cbn in *; [lia|]. rewrite IH; [done | lia].
Qed.

Lemma starts_with_slice (w : string) (n : nat) (s : string) :
  starts_with w (slice 0 n s) = true -> starts_with w s = true.
Proof.
  unfold slice. revert n s. induction w as [|a w IH]; intros n s; [done|].
  destruct s as [|c s]; [by destruct n|].
  destruct n as [|n]; cbn; [done|].
  destruct (Ascii.eqb a c); [apply IH | done].
Qed.

Lemma contains_cons (w : string) (c : ascii) (s : string) :
  contains w s = true -> contains w (String c s) = true.
Proof. intros Hs. cbn. rewrite Hs. apply orb_true_r. Qed.

Lemma contains_slice_0 (w : string) (n : nat) (s : string) :
  contains w (slice 0 n s) = true -> contains w s = true.
Proof.
  revert n. induction s as [|c s IH]; intros n.
  - unfold slice. by destruct n.
  - destruct n as [|n].
    + unfold slice. cbn [String.substring contains]. rewrite orb_false_r.
      destruct w; [done | discriminate].
    + intros Hw.
      assert (Hcases : starts_with w (slice 0 (S n) (String c s)) = true
                       \/ contains w (slice 0 n s) = true).
      { unfold slice in *. cbn [String.substring contains] in Hw.
        apply orb_true_iff in Hw. exact Hw. }
      destruct Hcases as [Hstart|Hrest].
      * apply starts_with_slice in Hstart. cbn [contains]. by rewrite Hstart.
      * apply contains_cons. by eapply IH.
Qed.

Lemma contains_slice (w : string) (i n : nat) (s : string) :
  contains w (slice i n s) = true -> contains w s = true.
Proof.
  revert i. induction s as [|c s IH]; intros i.
  - unfold slice. by destruct i, n.
  - destruct i as [|i]; [apply contains_slice_0|].
    intros Hw. apply contains_cons. by apply (IH i).
Qed.

Lemma count_le {A} (p q : A -> bool) (l : list A) :
  (forall x, p x = true -> q x = true) ->
  (length (List.filter p l) <= length (List.filter q l))%nat.
Proof.
  intros Hpq. induction l as [|x l IH]; cbn; [done|].
  destruct (p x) eqn:Hp.
  - rewrite (Hpq x Hp). cbn. lia.
  - destruct (q x); cbn; lia.
Qed.

(** No position other than 0 can win when no later window beats the
    score that is already held. *)
Lemma best_window_stays (sc : nat -> nat) (positions : list nat) (best_score : nat) :
  (forall i, (sc i <= sc 0%nat)%nat) ->
  (sc 0%nat <= best_score)%nat ->
  fst (fold_left
         (fun '(best_pos, best_score) i =>
            if (best_score <? sc i)%nat then (i, sc i) else (best_pos, best_score))
         positions (0%nat, best_score))
  = 0%nat.
Proof.
  intros Hsc. revert best_score. induction positions as [|i positions IH];
    intros best_score Hbest; [done|]. cbn [fold_left].
  destruct (Nat.ltb_spec best_score (sc i)) as [Hlt|_]; [|by apply IH].
  specialize (Hsc i). lia.
Qed.

Lemma best_window_first (sc : nat -> nat) (rest : list nat) :
  (forall i, (sc i <= sc 0%nat)%nat) ->
  fst (fold_left
         (fun '(best_pos, best_score) i =>
            if (best_score <? sc i)%nat then (i, sc i) else (best_pos, best_score))
         (0%nat :: rest) (0%nat, 0%nat))
  = 0%nat.
Proof.
  intros Hsc. cbn [fold_left].
  destruct (Nat.ltb_spec 0 (sc 0%nat)) as [_|Hzero];
    apply best_window_stays; [done | lia | done | done].
Qed.

Lemma range_step_head (n : nat) :
  (0 < n)%nat -> exists rest, range_step n 50 = 0%nat :: rest.
Proof.
  intros Hn. unfold range_step.
  destruct ((n + 50 - 1) / 50)%nat as [|k] eqn:Hk.
  - apply Nat.div_small_iff in Hk; lia.
  - cbn. by eexists.
Qed.

(** X5. A snippet is never longer than [max_length] plus the two
    ellipses, and a text that fits in [max_length], as does its lower-case
    form, is returned whole, without ellipsis.  (The windows are taken from
    the lower-case form of the text, which for a text outside ASCII can be
    longer than the text.) *)
Theorem extract_snippet_bounds (text : string) (query_words : list string)
    (max_length : nat) :
  (len (extract_snippet text query_words max_length) <= max_length + 6)%nat
  /\ ((len text <= max_length)%nat ->
      (len (lower text) <= max_length)%nat ->
      extract_snippet text query_words max_length = text).
Proof.
  unfold extract_snippet.
  destruct (is_empty text || bool_decide (query_words = [])) eqn:Htrivial.
  { destruct (Nat.ltb_spec max_length (len text)) as [Hlong|Hshort].
    - split; [|lia]. rewrite str_length_append.
      pose proof (length_slice 0 max_length text). cbn. lia.
    - split; [lia | done]. }
  set (sc := fun i => length (List.filter
                (fun word => contains word (slice i max_length (lower text))) query_words)).
  destruct (fold_left _ (range_step (len text) 50) (0%nat, 0%nat))
    as [best_pos best_score] eqn:Hfold.
  split.
  - pose proof (length_slice best_pos max_length text) as Hslice.
    assert (Hdots : forall s, len ("..." +:+ s) = (3 + len s)%nat)
      by (intros s; by rewrite str_length_append).
    assert (Hdots' : forall s, len (s +:+ "...") = (len s + 3)%nat)
      by (intros s; by rewrite str_length_append).
    destruct (0 <? best_pos)%nat, (best_pos + max_length <? len text)%nat;
      rewrite ?Hdots', ?Hdots; lia.
  - intros Hshort Hlower.
    assert (Hnonempty : (0 < len text)%nat).
    { destruct text; [done|]. unfold len. cbn. lia. }
    destruct (range_step_head (len text) Hnonempty) as [rest Hrange].
    assert (Hwin : forall i, (sc i <= sc 0%nat)%nat).
    { intros i. apply count_le. intros w Hw.
      rewrite slice_all by done. by eapply contains_slice. }
    assert (Hpos : best_pos = 0%nat).
    { change best_pos with (fst (best_pos, best_score)). rewrite <- Hfold, Hrange.
      exact (best_window_first sc rest Hwin). }
    subst best_pos. rewrite slice_all by done.
    destruct (Nat.ltb_spec 0 0) as [Habsurd|_]; [lia|].
    destruct (Nat.ltb_spec (0 + max_length) (len text)); [lia | done].
Qed.

End SnippetFacts.

(** * Properties of the results of a search *)

Section ScoreOrder.
Context {A : Type} (key : A -> Q).
Local Open Scope Q_scope.

Lemma insert_desc_sorted_Q (x : A) (l : list A) :
  StronglySorted (fun a b => key b <= key a) l ->
  StronglySorted (fun a b => key b <= key a) (insert_desc key Qltb x l).
Proof.
  induction 1 as [|y l Hsorted IH Hall]; cbn.
  - constructor; [constructor | constructor].
  - destruct (Qltb (key x) (key y)) eqn:Hcmp.
    + apply Qltb_lt in Hcmp. constructor; [done|].
      rewrite insert_desc_perm. constructor; [by apply Qlt_le_weak | done].
    + apply Qltb_ge in Hcmp. constructor; [by constructor|].
      constructor; [done|].
      eapply Forall_impl; [exact Hall|]. intros z Hz. cbn in *.
      by eapply Qle_trans.
Qed.

Lemma sort_desc_sorted_Q (l : list A) :
  StronglySorted (fun a b => key b <= key a) (sort_desc key Qltb l).
Proof.
  induction l as [|x l IH]; cbn; [constructor | by apply insert_desc_sorted_Q].
Qed.

Lemma StronglySorted_take (R : A -> A -> Prop) (n : nat) (l : list A) :
  StronglySorted R l -> StronglySorted R (take n l).
Proof.
  intros Hsorted. revert n.
  induction Hsorted as [|y l Hsorted IH Hall]; intros [|n]; cbn; try constructor.
  - apply IH.
  - apply Forall_forall. intros z Hz. rewrite Forall_forall in Hall.
    apply Hall. by eapply subseteq_take.
Qed.

Lemma py_take_subseteq (k : Z) (l : list A) : py_take k l ⊆ l.
Proof. unfold py_take. destruct (0 <=? k)%Z; apply subseteq_take. Qed.

Lemma py_take_sorted (R : A -> A -> Prop) (k : Z) (l : list A) :
  StronglySorted R l -> StronglySorted R (py_take k l).
Proof. unfold py_take. destruct (0 <=? k)%Z; apply StronglySorted_take. Qed.

Lemma py_take_length (k : Z) (l : list A) :
  (0 <= k)%Z -> (length (py_take k l) <= Z.to_nat k)%nat.
Proof.
  intros Hk. unfold py_take. destruct (Z.leb_spec 0 k) as [_|Hneg].
  - rewrite length_take. apply Nat.le_min_l.
  - exfalso. by apply (Z.lt_irrefl k), (Z.lt_le_trans _ 0).
Qed.
End ScoreOrder.

Section ResultFacts.
Import Text Search.
Local Open Scope Q_scope.

Variable ratio : string -> string -> Q.
Variable log10 : Z -> Q.
Variable fts_match : string -> list fts_doc -> option (list Z).

(** What [search] promises of a result for [query] on the store [d]. *)
Local Abbreviation kept query min_score d :=
  (fun result : SearchResult =>
     min_score <= score result
     /\ repo result ∈ repo_index d
     /\ score_repository ratio log10 (repo result) query = Ok result).

Lemma score_and_keep_kept (query : string) (min_score : Q) (d : db)
    (results out : list SearchResult) (r : row) :
  r ∈ repo_index d ->
  Forall (kept query min_score d) results ->
  score_and_keep ratio log10 query min_score results r = Ok out ->
  Forall (kept query min_score d) out.
Proof.
  intros Hr Hresults. unfold score_and_keep.
  destruct (score_repository ratio log10 r query) as [result|e] eqn:Hscore; [|done].
  cbn. destruct (Qle_bool min_score (score result)) eqn:Hmin; intros [= <-]; [|done].
  apply Forall_app. split; [done|]. constructor; [|constructor].
  pose proof (score_repository_repo ratio log10 r query result Hscore) as Hrepo.
  rewrite Hrepo. split; [by apply Qle_bool_iff | done].
Qed.

Lemma for_each_kept (query : string) (min_score : Q) (d : db)
    (f : list SearchResult -> row -> res (list SearchResult))
    (rows : list row) (results out : list SearchResult) :
  (forall acc r out', r ∈ repo_index d -> Forall (kept query min_score d) acc ->
                      f acc r = Ok out' -> Forall (kept query min_score d) out') ->
  rows ⊆ repo_index d ->
  Forall (kept query min_score d) results ->
  for_each f rows results = Ok out ->
  Forall (kept query min_score d) out.
Proof.
  intros Hf. revert results. induction rows as [|r rows IH]; intros results Hrows Hresults.
  - cbn. by intros [= <-].
  - cbn [for_each]. destruct (f results r) as [acc|e] eqn:Hstep; [|done].
    cbn [mbind res_bind]. apply IH.
    + intros x Hx. apply Hrows, elem_of_cons. by right.
    + eapply Hf; [|exact Hresults|exact Hstep]. apply Hrows, elem_of_cons. by left.
Qed.

Lemma fts_rows_subseteq (ids : list Z) (d : db) : fts_rows ids d ⊆ repo_index d.
Proof.
  unfold fts_rows, order_by_stars. intros r Hr.
  rewrite sort_desc_perm in Hr.
  apply list_elem_of_In, in_flat_map in Hr as (i & _ & Hin).
  apply list_elem_of_In, list_elem_of_filter in Hin as [_ Hin]. done.
Qed.

(** X6. Every result of a search with keywords scores at least
    [min_score], is the scoring of a row of the store against the query,
    and the results stand in descending order of score. *)
Theorem search_results_kept (query : string) (limit : Z) (min_score : Q) (d : db)
    (results : list SearchResult) :
  is_empty (strip query) = false ->
  extract_keywords (normalize_query query) <> [] ->
  search ratio log10 fts_match query limit min_score d = Ok results ->
  Forall (fun result =>
            min_score <= score result
            /\ repo result ∈ repo_index d
            /\ score_repository ratio log10 (repo result) query = Ok result)
         results
  /\ StronglySorted (fun a b => score b <= score a) results.
Proof.
  intros Hblank Hsome. unfold search.
  rewrite Hblank, bool_decide_eq_false_2 by done.
  destruct (match fts_match _ _ with Some _ => _ | None => _ end)
    as [first|e] eqn:Hfirst; [|done].
  cbn [mbind res_bind].
  assert (Hkept1 : Forall (kept query min_score d) first).
  { destruct (fts_match _ _) as [ids|]; [|by injection Hfirst as <-].
    refine (for_each_kept query min_score d _ _ [] first _ (fts_rows_subseteq ids d)
              (Forall_nil_2 _) Hfirst).
    intros acc r out'. apply score_and_keep_kept. }
  destruct (if (_ <? _)%Z then _ else _) as [all|e] eqn:Hsecond; [|done].
  cbn [mbind res_bind]. intros [= <-].
  assert (Hkept2 : Forall (kept query min_score d) all).
  { destruct (_ <? _)%Z; [|by injection Hsecond as <-].
    unfold fuzzy_pass in Hsecond.
    refine (for_each_kept query min_score d _ _ first all _ _ Hkept1 Hsecond).
    - intros acc r out' Hr Hacc. destruct (existsb _ acc).
      + by intros [= <-].
      + by apply score_and_keep_kept.
    - unfold order_by_stars. intros r. by rewrite sort_desc_perm. }
  split.
  - apply Forall_forall. intros result Hin.
    apply py_take_subseteq in Hin. rewrite sort_desc_perm in Hin.
    rewrite Forall_forall in Hkept2. by apply Hkept2.
  - apply py_take_sorted, sort_desc_sorted_Q.
Qed.

Lemma search_cut (query : string) (limit : Z) (min_score : Q) (d : db)
    (results : list SearchResult) :
  search ratio log10 fts_match query limit min_score d = Ok results ->
  results = get_all_repos limit d \/ exists all, results = py_take limit all.
Proof.
  unfold search.
  destruct (is_empty (strip query)); [intros [= <-]; by left|].
  case_bool_decide; [intros [= <-]; by left|].
  destruct (match fts_match _ _ with Some _ => _ | None => _ end) as [first|e]; [|done].
  cbn [mbind res_bind].
  destruct (if (_ <? _)%Z then _ else _) as [all|e]; [|done].
  cbn [mbind res_bind]. intros [= <-]. right. by eexists.
Qed.

(** X7. For a [limit] that is not negative, [search] returns at most
    [limit] results, whatever the query. *)
Theorem search_respects_limit (query : string) (limit : Z) (min_score : Q) (d : db)
    (results : list SearchResult) :
  (0 <= limit)%Z ->
  search ratio log10 fts_match query limit min_score d = Ok results ->
  (length results <= Z.to_nat limit)%nat.
Proof.
  intros Hlimit [->|[all ->]]%search_cut.
  - unfold get_all_repos. rewrite length_map, sql_limit_length by done.
    apply Nat.le_min_l.
  - by apply py_take_length.
Qed.

End ResultFacts.

(** * Properties of the scores *)

Section ScoreFacts.
Import Text Search.
Local Open Scope Q_scope.

Variable ratio : string -> string -> Q.
Variable log10 : Z -> Q.
Variable fts_match : string -> list fts_doc -> option (list Z).

Lemma score_repository_raise_cases (r : row) (query : string) :
  (exists e, score_repository ratio log10 r query = Raise e)
  <-> extract_keywords (normalize_query query) <> [] /\ (stars (content r) < 0)%Z.
Proof.
  unfold score_repository. case_bool_decide as Hwords.
  { split; [by intros [e He] | by intros [Hsome _]]. }
  destruct (score_fields ratio _ r) as [[total matched] snips].
  unfold popularity_boost.
  destruct (Z.leb_spec (stars (content r) + 1) 0) as [Hneg|Hpos]; cbn.
  - split; [|by exists ValueError]. intros _. split; [done | lia].
  - split; [by intros [e He]|]. intros [_ Hlt]. lia.
Qed.

(** X8. Scoring raises exactly when the query has a keyword and the star
    count of the row is negative ([math.log10] of a number that is not
    positive), and then it raises [ValueError]. *)
Theorem score_repository_raises_iff (r : row) (query : string) :
  ((exists e, score_repository ratio log10 r query = Raise e)
   <-> extract_keywords (normalize_query query) <> [] /\ (stars (content r) < 0)%Z)
  /\ (forall e, score_repository ratio log10 r query = Raise e -> e = ValueError).
Proof.
  split; [apply score_repository_raise_cases|].
  intros e. apply score_repository_raises.
Qed.




(** *** Bounds *)

Lemma word_score_le_1 (query_word text_word : string) :
  (forall a b, ratio a b <= 1) -> word_score ratio query_word text_word <= 1.
Proof.
  intros Hratio. unfold word_score.
  destruct (String.eqb _ _); [apply Qle_refl|].
  destruct (_ || _); [done|].
  destruct (Qltb _ _); [done | apply Hratio].
Qed.

Lemma Qmax_list_le (l : list Q) (bound : Q) :
  0 <= bound -> Forall (fun x => x <= bound) l -> Qmax_list l <= bound.
Proof.
  intros Hbound. unfold Qmax_list. induction 1 as [|x l Hx _ IH]; cbn [foldr]; [done|].
  by apply Q.max_lub.
Qed.

Lemma Qmax_list_ge (l : list Q) (x : Q) : In x l -> x <= Qmax_list l.
Proof.
  unfold Qmax_list. induction l as [|y l IH]; cbn [foldr]; [done|].
  intros [->|Hin]; [apply Q.le_max_l|].
  eapply Qle_trans; [by apply IH | apply Q.le_max_r].
Qed.

Lemma Qsum_le {A} (f : A -> Q) (l : list A) :
  (forall x, f x <= 1) -> Qsum (map f l) <= inject_Z (Z.of_nat (length l)).
Proof.
  intros Hf. unfold Qsum. induction l as [|x l IH]; cbn [map foldr length]; [done|].
  rewrite Nat2Z.inj_succ, <- Z.add_1_l, inject_Z_plus.
  by apply Qplus_le_compat.
Qed.

Lemma Qsum_ge {A} (f : A -> Q) (l : list A) (x : A) :
  (forall y, 0 <= f y) -> In x l -> f x <= Qsum (map f l).
Proof.
  intros Hf. unfold Qsum. induction l as [|y l IH]; cbn [map foldr]; [done|].
  intros [->|Hin].
  - rewrite <- (Qplus_0_r (f x)) at 1. apply Qplus_le_compat; [apply Qle_refl|].
    apply (Qsum_nonneg (map f l)). apply Forall_map, Forall_forall. auto.
  - rewrite <- (Qplus_0_l (f x)). apply Qplus_le_compat; [apply Hf | by apply IH].
Qed.

Lemma spec_best_le_1 (query_word : string) (words : list string) :
  (forall a b, ratio a b <= 1) -> spec_best ratio query_word words <= 1.
Proof.
  intros Hratio. unfold spec_best. apply Qmax_list_le; [done|].
  apply Forall_map, Forall_forall. intros w _. by apply word_score_le_1.
Qed.

Lemma spec_similarity_le_1 (query_words : list string) (text : string) :
  (forall a b, ratio a b <= 1) -> spec_similarity ratio query_words text <= 1.
Proof.
  intros Hratio. unfold spec_similarity.
  destruct query_words as [|qw qws]; [done|].
  apply Qle_shift_div_r.
  - unfold Qlt. cbn. lia.
  - rewrite Qmult_1_l.
    apply (Qsum_le (fun query_word => spec_best ratio query_word (extract_keywords text))).
    intros w. by apply spec_best_le_1.
Qed.

(** X10. If the edit-similarity ratio never exceeds 1, a field similarity
    lies between 0 and 1, the total over the five fields between 0 and
    11.5 (the sum of the weights), and the score of a record with a star
    count that is not negative is at most 12. *)
Theorem score_bounds (r : row) (query_words : list string) (text query : string)
    (result : SearchResult) :
  (forall a b, ratio a b <= 1) ->
  (0 <= stars (content r))%Z ->
  score_repository ratio log10 r query = Ok result ->
  0 <= fst (calculate_text_similarity ratio query_words text) <= 1
  /\ 0 <= (score_fields ratio query_words r).1.1 <= 11.5
  /\ score result <= 12.
Proof.
  intros Hratio Hstars Hscore.
  assert (Hsim : forall qws t, 0 <= fst (calculate_text_similarity ratio qws t) <= 1).
  { intros qws t. rewrite calculate_text_similarity_spec.
    split; [apply spec_similarity_nonneg | by apply spec_similarity_le_1]. }
  assert (Htotal : forall qws, 0 <= (score_fields ratio qws r).1.1 <= 11.5).
  { intros qws. destruct (score_fields_spec ratio qws r) as [-> _].
    unfold spec_relevance, Qsum. cbn [fields_weights map foldr].
    pose proof (fun f => spec_similarity_nonneg ratio qws (field_value r f)) as Hlo.
    pose proof (fun f => spec_similarity_le_1 qws (field_value r f) Hratio) as Hhi.
    pose proof (Hlo Name). pose proof (Hlo FullName). pose proof (Hlo Description).
    pose proof (Hlo ReadmeContent). pose proof (Hlo Topics).
    pose proof (Hhi Name). pose proof (Hhi FullName). pose proof (Hhi Description).
    pose proof (Hhi ReadmeContent). pose proof (Hhi Topics).
    clear Hlo Hhi Hsim Hscore. split; lra. }
  split; [apply Hsim|]. split; [apply Htotal|].
  destruct (popularity_boost_value log10 _ Hstars) as (b & Hboost & Hb).
  assert (Hb05 : b <= 0.5) by (rewrite Hb; apply Q.le_min_r).
  revert Hscore. unfold score_repository. case_bool_decide as Hwords.
  { by intros [= <-]. }
  pose proof (Htotal (extract_keywords (normalize_query query))) as [_ Hrel].
  destruct (score_fields ratio _ r) as [[total matched] snips]. cbn [fst] in Hrel.
  rewrite Hboost. cbn [mbind res_bind]. intros [= <-]. cbn [score].
  clear Hsim Htotal Hb Hboost. destruct (archived (content r)); lra.
Qed.

Lemma score_repository_matched (r : row) (query : string) (result : SearchResult) :
  extract_keywords (normalize_query query) <> [] ->
  score_repository ratio log10 r query = Ok result ->
  matched_fields result = (score_fields ratio (extract_keywords (normalize_query query)) r).1.2.
Proof.
  intros Hwords. unfold score_repository. rewrite bool_decide_eq_false_2 by done.
  destruct (score_fields ratio _ r) as [[total matched] snips].
  destruct (popularity_boost log10 _); cbn; [by intros [= <-] | done].
Qed.

(** X11. A field is among the matched fields whenever one of its words
    equals a keyword of the query, contains it, or is contained in it. *)
Theorem matched_on_containment (r : row) (query : string) (result : SearchResult)
    (f : field) (query_word text_word : string) :
  score_repository ratio log10 r query = Ok result ->
  In query_word (extract_keywords (normalize_query query)) ->
  In text_word (extract_keywords (field_value r f)) ->
  query_word = text_word
  \/ contains query_word text_word = true
  \/ contains text_word query_word = true ->
  field_name f ∈ matched_fields result.
Proof.
  intros Hscore Hqw Htw Hrelated.
  assert (Hwords : extract_keywords (normalize_query query) <> [])
    by (by destruct (extract_keywords (normalize_query query))).
  rewrite (score_repository_matched r query result Hwords Hscore).
  destruct (score_fields_spec ratio (extract_keywords (normalize_query query)) r) as [_ ->].
  apply spec_matched_iff.
  assert (Hword : 0.8 <= word_score ratio query_word text_word).
  { destruct (word_score_cases ratio query_word text_word) as (Heq & Hsub & _).
    destruct (decide (query_word = text_word)) as [Hsame|Hdiff].
    - by rewrite (Heq Hsame).
    - rewrite Hsub; [apply Qle_refl | done | by destruct Hrelated as [?|[?|?]]; auto]. }
  assert (Hbest : 0.8 <= spec_best ratio query_word (extract_keywords (field_value r f))).
  { eapply Qle_trans; [exact Hword|]. unfold spec_best.
    apply Qmax_list_ge, in_map_iff. by exists text_word. }
  assert (Hsum : 0.8 <= Qsum (map (fun qw => spec_best ratio qw
                                     (extract_keywords (field_value r f)))
                                  (extract_keywords (normalize_query query)))).
  { eapply Qle_trans; [exact Hbest|].
    apply (Qsum_ge (fun qw => spec_best ratio qw (extract_keywords (field_value r f))));
      [|done].
    intros y. apply Qmax_list_nonneg. }
  unfold spec_similarity. apply Qlt_shift_div_l.
  - destruct (extract_keywords (normalize_query query)); [done|].
    unfold Qlt. cbn. lia.
  - rewrite Qmult_0_l. eapply Qlt_le_trans; [|exact Hsum]. done.
Qed.

End ScoreFacts.

(** * Properties of the suggestions *)

Section SuggestionFacts.
Import Text Search.

Variable json_dumps : list string -> string.

Lemma sql_limit_subseteq {A} (k : Z) (l : list A) : sql_limit k l ⊆ l.
Proof. unfold sql_limit. destruct (k <? 0)%Z; [done | apply subseteq_take]. Qed.

(** X12. Every suggestion is the [name] or a topic of a row of the store,
    and its lower-case form contains the normalized query. *)
Theorem suggestions_sound (query : string) (limit : Z) (d : db) (s : string) :
  s ∈ get_suggestions json_dumps query limit d ->
  contains (normalize_query query) (lower s) = true
  /\ exists r, r ∈ repo_index d
               /\ (s = name (content r) \/ s ∈ topics (content r)).
Proof.
  unfold get_suggestions.
  destruct (len (normalize_query query) <? 2)%nat; [by intros ?%not_elem_of_nil|].
  intros Hin%py_take_subseteq%elem_of_elements. revert Hin.
  set (q := normalize_query query).
  set (good := fun x : string =>
         contains q (lower x) = true
         /\ exists r, r ∈ repo_index d /\ (x = name (content r) \/ x ∈ topics (content r))).
  assert (Hadd : forall (S : gset string) x,
            (forall y, y ∈ S -> good y) ->
            (contains q (lower x) = true -> good x) ->
            forall y, y ∈ add_if q S x -> good y).
  { intros S x HS Hx y. unfold add_if.
    destruct (contains q (lower x)) eqn:Hc; [|apply HS].
    intros [Hy|Hy%elem_of_singleton]%elem_of_union; [by apply HS | subst; by apply Hx]. }
  assert (Htopics : forall r (tps : list string) (S : gset string),
            r ∈ repo_index d -> tps ⊆ topics (content r) ->
            (forall y, y ∈ S -> good y) ->
            forall y, y ∈ fold_left (add_if q) tps S -> good y).
  { intros r tps. induction tps as [|t tps IH]; intros S Hr Hsub HS; [done|].
    cbn [fold_left]. apply IH; [done | |].
    - intros x Hx. apply Hsub, elem_of_cons. by right.
    - apply Hadd; [done|]. intros Hc. split; [done|]. exists r. split; [done|].
      right. apply Hsub, elem_of_cons. by left. }
  assert (Hrows : forall (rows : list row) (S : gset string),
            rows ⊆ repo_index d ->
            (forall y, y ∈ S -> good y) ->
            forall y, y ∈ fold_left
                       (fun S r => fold_left (add_if q) (topics (content r))
                                     (add_if q S (name (content r))))
                       rows S -> good y).
  { induction rows as [|r rows IH]; intros S Hsub HS; [done|].
    cbn [fold_left]. apply IH.
    - intros x Hx. apply Hsub, elem_of_cons. by right.
    - assert (Hr : r ∈ repo_index d) by (apply Hsub, elem_of_cons; by left).
      apply (Htopics r); [done | done|].
      apply Hadd; [done|]. intros Hc. split; [done|]. exists r. split; [done | by left]. }
  apply Hrows.
  - unfold suggestion_rows. intros r Hr%sql_limit_subseteq.
    by apply list_elem_of_filter in Hr as [_ Hr].
  - by intros y ?%not_elem_of_empty.
Qed.

End SuggestionFacts.

(** * Properties of the indexing pass *)

Section CacheFacts.
Import Indexer.

Variable fromisoformat : string -> option Z.
Variable download : string -> option string.
Variable clean_markdown : string -> string.

Lemma fetch_remote_first (now : Z) (fn : string) (pre post : list string)
    (readme_file raw : string) (files : gmap string file) :
  Forall (fun candidate => download (readme_url fn candidate) = None) pre ->
  download (readme_url fn readme_file) = Some raw ->
  fetch_remote download clean_markdown now fn (pre ++ readme_file :: post) files
  = (clean_markdown raw,
     <[cache_file fn := {| st_mtime := now; text := clean_markdown raw |}]> files).
Proof.
  intros Hpre Hraw. induction Hpre as [|candidate pre Hfail _ IH]; cbn.
  - by rewrite Hraw.
  - by rewrite Hfail.
Qed.

Lemma fetch_remote_none (now : Z) (fn : string) (candidates : list string)
    (files : gmap string file) :
  Forall (fun candidate => download (readme_url fn candidate) = None) candidates ->
  fetch_remote download clean_markdown now fn candidates files = (EmptyString, files).
Proof. induction 1 as [|candidate rest Hfail _ IH]; cbn; [done | by rewrite Hfail]. Qed.

(** X13. The first candidate file that downloads wins: its cleaned text
    is returned and cached, and from then on, as long as the record's
    [updated_at] is before the instant of the download, every call is
    served that text from the cache, whatever the session answers and
    without another write. *)
Theorem download_then_cached (now : Z) (fn upd : string) (files : gmap string file)
    (pre post : list string) (readme_file raw : string) (repo_updated : Z) :
  readme_files = pre ++ readme_file :: post ->
  Forall (fun candidate => download (readme_url fn candidate) = None) pre ->
  download (readme_url fn readme_file) = Some raw ->
  cache_lookup fromisoformat fn upd files = Ok None ->
  fromisoformat upd = Some repo_updated ->
  repo_updated < now ->
  let files' := <[cache_file fn := {| st_mtime := now; text := clean_markdown raw |}]> files in
  fetch_readme_content fromisoformat download clean_markdown now fn upd files
  = Ok (clean_markdown raw, files')
  /\ forall download' clean_markdown' now',
       fetch_readme_content fromisoformat download' clean_markdown' now' fn upd files'
       = Ok (clean_markdown raw, files').
Proof.
  intros Hsplit Hpre Hraw Hmiss Htime Hfresh files'. split.
  - unfold fetch_readme_content. rewrite Hmiss. cbn [mbind res_bind].
    rewrite Hsplit. by erewrite fetch_remote_first.
  - intros download' clean' now'. unfold fetch_readme_content, cache_lookup, files'.
    rewrite lookup_insert_eq, Htime. cbn [st_mtime text].
    by rewrite (proj2 (Z.ltb_lt _ _) Hfresh).
Qed.

(** X14. When no candidate file downloads, a miss gives the empty README
    and leaves the cache as it was. *)
Theorem no_readme_no_cache (now : Z) (fn upd : string) (files : gmap string file) :
  Forall (fun candidate => download (readme_url fn candidate) = None) readme_files ->
  cache_lookup fromisoformat fn upd files = Ok None ->
  fetch_readme_content fromisoformat download clean_markdown now fn upd files
  = Ok (EmptyString, files).
Proof.
  intros Hnone Hmiss. unfold fetch_readme_content. rewrite Hmiss. cbn [mbind res_bind].
  by rewrite fetch_remote_none.
Qed.

End CacheFacts.

Section StoreFacts.
Import Indexer Pipeline.

Variable md5 : string -> string.
Variable json_dumps : list string -> string.

Local Abbreviation save_to_database := (save_to_database md5 json_dumps).
Local Abbreviation get_content_hash := (get_content_hash md5).
Local Abbreviation consistent := (consistent md5 json_dumps).

Lemma filter_other_name (fn fn' : string) (rows : list row) :
  fn <> fn' ->
  filter (fun r => has_name fn r = true)
         (filter (fun r => has_name fn' r <> true) rows)
  = filter (fun r => has_name fn r = true) rows.
Proof.
  intros Hne. induction rows as [|r rows IH]; [done|].
  rewrite (filter_cons (fun r => has_name fn' r <> true)).
  rewrite (filter_cons (fun r => has_name fn r = true) r rows).
  destruct (decide (has_name fn' r <> true)) as [Hkeep|Hdrop].
  - rewrite filter_cons. by rewrite IH.
  - rewrite IH. destruct (decide (has_name fn r = true)) as [Hfn|]; [|done].
    exfalso. apply Hne. unfold has_name in *.
    apply String.eqb_eq in Hfn. destruct (String.eqb_spec (full_name (content r)) fn');
      [congruence | exfalso; by apply Hdrop].
Qed.

Lemma filter_name_after_insert (fn : string) rt (rc : RepoContent) (h : string) (d : db) :
  fn <> full_name rc ->
  filter (fun r => has_name fn r = true)
         (repo_index (insert_or_replace json_dumps rt rc h d))
  = filter (fun r => has_name fn r = true) (repo_index d).
Proof.
  intros Hne. rewrite repo_index_insert_or_replace, filter_app.
  rewrite filter_other_name by done.
  rewrite filter_cons, filter_nil.
  destruct (decide _) as [Hsame|]; [|by rewrite app_nil_r].
  exfalso. apply Hne. unfold has_name in Hsame. cbn in Hsame.
  by apply String.eqb_eq in Hsame.
Qed.

Lemma save_keeps_other_names (rc : RepoContent) (d : db) (fn : string) :
  fn <> full_name rc ->
  filter (fun r => has_name fn r = true) (repo_index (save_to_database rc d))
  = filter (fun r => has_name fn r = true) (repo_index d)
  /\ select_content_hash fn (save_to_database rc d) = select_content_hash fn d.
Proof.
  intros Hne.
  assert (Hrows : filter (fun r => has_name fn r = true)
                    (repo_index (save_to_database rc d))
                  = filter (fun r => has_name fn r = true) (repo_index d)).
  { unfold Indexer.save_to_database.
    destruct (select_content_hash (full_name rc) d) as [stored|];
      [destruct (String.eqb stored _); [done|]|]; by apply filter_name_after_insert. }
  split; [done|]. unfold select_content_hash. by rewrite Hrows.
Qed.

(** X15. Upsert and lookup.  After [save_to_database] the lookup of the
    record's [full_name] gives the fingerprint of the record; the rows and
    the lookups of every other [full_name] are as before; and when the
    stored fingerprint was another one (or none), the key has exactly one
    row, holding the record under a new rowid. *)
Theorem save_to_database_lookup (rc : RepoContent) (d : db) :
  select_content_hash (full_name rc) (save_to_database rc d) = Some (get_content_hash rc)
  /\ (forall fn, fn <> full_name rc ->
        filter (fun r => has_name fn r = true) (repo_index (save_to_database rc d))
        = filter (fun r => has_name fn r = true) (repo_index d)
        /\ select_content_hash fn (save_to_database rc d) = select_content_hash fn d)
  /\ (select_content_hash (full_name rc) d <> Some (get_content_hash rc) ->
      filter (fun r => has_name (full_name rc) r = true)
             (repo_index (save_to_database rc d))
      = [ {| rowid := new_rowid (repo_index d); content := rc;
             content_hash := get_content_hash rc |} ]).
Proof.
  split; [apply select_after_save|]. split.
  - intros fn Hne. by apply save_keeps_other_names.
  - intros Hchanged.
    assert (Hsave : save_to_database rc d
                    = insert_or_replace json_dumps false rc (get_content_hash rc) d).
    { unfold Indexer.save_to_database.
      destruct (select_content_hash (full_name rc) d) as [stored|]; [|done].
      destruct (String.eqb_spec stored (get_content_hash rc)) as [->|]; [done|done]. }
    rewrite Hsave, repo_index_insert_or_replace, filter_app, filter_conflicts_of_kept.
    rewrite filter_cons, filter_nil.
    destruct (decide _) as [|Hself]; [done|].
    exfalso. apply Hself. unfold has_name. cbn. apply String.eqb_refl.
Qed.

Lemma rowid_lt_new (rows : list row) (r : row) :
  r ∈ rows -> rowid r < new_rowid rows.
Proof.
  unfold new_rowid. induction rows as [|x rows IH]; [by intros ?%not_elem_of_nil|].
  cbn [foldr]. intros [->|Hin]%elem_of_cons; [lia|]. specialize (IH Hin). lia.
Qed.

Lemma consistent_insert (rc : RepoContent) (d : db) :
  consistent d ->
  consistent (insert_or_replace json_dumps false rc (get_content_hash rc) d).
Proof.
  intros (Hnames & Hrowids & Hhashes & Hdocs). unfold Pipeline.consistent.
  split; [by apply unique_names_insert_or_replace|].
  rewrite repo_index_insert_or_replace.
  assert (Hfts : repo_fts (insert_or_replace json_dumps false rc (get_content_hash rc) d)
                 = repo_fts d ++ [fts_of json_dumps
                     {| rowid := new_rowid (repo_index d); content := rc;
                        content_hash := get_content_hash rc |}]) by reflexivity.
  rewrite Hfts. clear Hfts.
  pose proof (sublist_filter (fun r => has_name (full_name rc) r <> true) (repo_index d))
    as Hkept.
  split; [|split].
  - rewrite map_app. apply NoDup_app. split; [|split].
    + eapply sublist_NoDup; [exact Hrowids|]. by apply fmap_sublist.
    + intros i Hi Hnew. cbn in Hnew. apply list_elem_of_singleton in Hnew as ->.
      apply list_elem_of_fmap in Hi as (r & Hrow & Hr).
      apply list_elem_of_filter in Hr as [_ Hr].
      pose proof (rowid_lt_new _ _ Hr). lia.
    + apply NoDup_singleton.
  - apply Forall_app. split.
    + rewrite Forall_forall in Hhashes. apply Forall_forall. intros r Hr.
      apply list_elem_of_filter in Hr as [_ Hr]. by apply Hhashes.
    + by repeat constructor.
  - rewrite map_app. apply submseteq_app; [|done].
    etrans; [|exact Hdocs]. apply fmap_submseteq. by apply sublist_submseteq.
Qed.

(** X16. [save_to_database] keeps the store consistent: unique
    [full_name]s and rowids, every row with the fingerprint of its own
    content, and every row with its document in the shadow index, so that
    no stored row is ever missing from the full-text index. *)
Theorem save_to_database_consistent (rc : RepoContent) (d : db) :
  consistent d -> consistent (save_to_database rc d).
Proof.
  intros Hd. unfold Indexer.save_to_database.
  destruct (select_content_hash (full_name rc) d) as [stored|];
    [destruct (String.eqb stored _); [done|]|]; by apply consistent_insert.
Qed.

End StoreFacts.

Section PipelineFacts.
Import Text Indexer Pipeline.

Variable md5 : string -> string.
Variable json_dumps : list string -> string.
Variable fromisoformat : string -> option Z.
Variable download : string -> option string.
Variable clean_markdown : string -> string.
Variable isoformat : Z -> string.
Variable fts_ranked : string -> list fts_doc -> option (list Z).

Local Abbreviation process_repository :=
  (process_repository fromisoformat download clean_markdown isoformat).
Local Abbreviation index_one :=
  (index_one md5 json_dumps fromisoformat download clean_markdown isoformat).
Local Abbreviation build_index :=
  (build_index md5 json_dumps fromisoformat download clean_markdown isoformat).
Local Abbreviation consistent := (consistent md5 json_dumps).


Lemma fetch_readme_content_no_file (now : Z) (fn upd : string)
    (files : gmap string file) :
  files !! cache_file fn = None ->
  fetch_readme_content fromisoformat download clean_markdown now fn upd files
  = Ok (fetch_remote download clean_markdown now fn readme_files files).
Proof. intros Hnone. unfold fetch_readme_content, cache_lookup. by rewrite Hnone. Qed.

(** X17. [process_repository] never reads the cache or the network for an
    archived record: it returns the record with an empty README and the
    cache directory untouched.  It can raise only for a record that is not
    archived and has a cache file (the statements of the cache check are
    the only ones outside a [try]), and it does raise [ValueError] when the
    [updated_at] of such a record cannot be parsed. *)
Theorem process_repository_outcome (now : Z) (rd : repo_data) (files : gmap string file) :
  (rd_archived rd = Some true ->
   exists rc, process_repository now rd files = Ok (rc, files)
              /\ readme_content rc = EmptyString /\ archived rc = true
              /\ full_name rc = rd_full_name rd)
  /\ (forall e, process_repository now rd files = Raise e ->
                default false (rd_archived rd) = false
                /\ is_Some (files !! cache_file (rd_full_name rd)))
  /\ (default false (rd_archived rd) = false ->
      is_Some (files !! cache_file (rd_full_name rd)) ->
      fromisoformat (rd_updated_at rd) = None ->
      process_repository now rd files = Raise ValueError).
Proof.
  unfold Pipeline.process_repository. split; [|split].
  - intros ->. cbn. by eexists.
  - intros e. destruct (default false (rd_archived rd)); cbn [negb]; [done|].
    destruct (files !! cache_file (rd_full_name rd)) as [f|] eqn:Hfile; [done|].
    by rewrite fetch_readme_content_no_file.
  - intros -> [f Hfile] Htime. cbn [negb].
    unfold fetch_readme_content, cache_lookup. by rewrite Hfile, Htime.
Qed.

Lemma build_index_app (pre post : list (Z * repo_data)) (st : pass) :
  build_index (pre ++ post) st = build_index post (build_index pre st).
Proof. unfold Pipeline.build_index. apply foldl_app. Qed.

(** X18. A record on which [process_repository] raises is skipped: the
    pass goes on, and its cache, database and report end as if the record
    had not been in the listing. *)
Theorem build_index_skips_failure (pre post : list (Z * repo_data)) (now : Z)
    (bad : repo_data) (st : pass) (e : exn) :
  process_repository now bad (cache (build_index pre st)) = Raise e ->
  build_index (pre ++ (now, bad) :: post) st = build_index (pre ++ post) st.
Proof.
  intros Hraise. rewrite !build_index_app.
  assert (Hskip : index_one (build_index pre st) (now, bad) = build_index pre st).
  { unfold Pipeline.index_one. cbn [fst snd]. by rewrite Hraise. }
  change (build_index ((now, bad) :: post) (build_index pre st))
    with (build_index post (index_one (build_index pre st) (now, bad))).
  by rewrite Hskip.
Qed.

Lemma select_kept_by_save (fn : string) (rc : RepoContent) (d : db) :
  is_Some (select_content_hash fn d) ->
  is_Some (select_content_hash fn (save_to_database md5 json_dumps rc d)).
Proof.
  intros Hsome.
  destruct (decide (fn = full_name rc)) as [->|Hne].
  - by rewrite select_after_save.
  - destruct (save_keeps_other_names md5 json_dumps rc d fn Hne) as [_ ->]. done.
Qed.

Lemma process_repository_name (now : Z) (rd : repo_data) (files files' : gmap string file)
    (rc : RepoContent) :
  process_repository now rd files = Ok (rc, files') -> full_name rc = rd_full_name rd.
Proof.
  unfold Pipeline.process_repository.
  destruct (if negb _ then _ else _) as [fetched|e]; cbn; [|done].
  by intros [= <- _].
Qed.

(** X19. The pass keeps the store consistent; its report grows by at most
    one record per listed record; and every record it reports comes from
    the listing and has a row in the database at the end. *)
Theorem build_index_report (batch : list (Z * repo_data)) (st : pass) :
  consistent (database st) ->
  consistent (database (build_index batch st))
  /\ exists new,
       processed_repos (build_index batch st) = processed_repos st ++ new
       /\ (length new <= length batch)%nat
       /\ Forall (fun rc =>
                    (exists item, item ∈ batch /\ full_name rc = rd_full_name item.2)
                    /\ is_Some (select_content_hash (full_name rc)
                                  (database (build_index batch st))))
                 new.
Proof.
  revert st. induction batch as [|item batch IH]; intros st Hst.
  { split; [done|]. exists []. by rewrite app_nil_r. }
  assert (Hstep : exists added,
            processed_repos (index_one st item) = processed_repos st ++ added
            /\ (length added <= 1)%nat
            /\ consistent (database (index_one st item))
            /\ Forall (fun rc => full_name rc = rd_full_name item.2
                                 /\ is_Some (select_content_hash (full_name rc)
                                               (database (index_one st item))))
                      added).
  { unfold Pipeline.index_one.
    destruct (process_repository item.1 item.2 (cache st)) as [[rc files]|e] eqn:Hp.
    - exists [rc]. cbn. split; [done|]. split; [done|].
      split.
      { unfold Indexer.save_to_database.
        destruct (select_content_hash (full_name rc) (database st)) as [stored|];
          [destruct (String.eqb stored _); [done|]|]; by apply consistent_insert. }
      constructor; [|constructor]. split; [by eapply process_repository_name|].
      by rewrite select_after_save.
    - exists []. rewrite app_nil_r. split; [done|]. split; [cbn; lia|].
      split; [exact Hst | constructor]. }
  destruct Hstep as (added & Hadded & Hlen & Hcons & Hrows).
  change (build_index (item :: batch) st) with (build_index batch (index_one st item)).
  destruct (IH (index_one st item) Hcons) as (Hfinal & new & Hnew & Hlen' & Hrows').
  split; [done|]. exists (added ++ new).
  split; [by rewrite Hnew, Hadded, app_assoc|].
  split; [rewrite length_app; cbn [length]; lia|].
  apply Forall_app. split.
  - eapply Forall_impl; [exact Hrows|]. intros rc [Hname Hrow]. split.
    + exists item. split; [apply elem_of_cons; by left | done].
    + clear -Hrow. revert Hrow.
      generalize (index_one st item). intros st0.
      unfold Pipeline.build_index. revert st0.
      induction batch as [|item' batch IHb]; intros st0 Hrow; [done|].
      cbn [foldl]. apply IHb. unfold Pipeline.index_one.
      destruct (Pipeline.process_repository _ _ _ _ _ _ (cache st0)) as [[rc' files]|e];
        [|done].
      cbn [database]. by apply select_kept_by_save.
  - eapply Forall_impl; [exact Hrows'|]. intros rc [(it & Hit & Hname) Hrow].
    split; [|done]. exists it. split; [apply elem_of_cons; by right | done].
Qed.

(** X20. The indexer's own search.  For a blank query it lists the
    contents of the rows with the most stars first, cut by [limit]; for any
    other query a failing full-text query is not caught; and every listed
    content is the content of a row of the store, at most [limit] of them
    for a [limit] that is not negative. *)
Theorem search_repositories_facts (query : string) (limit : Z) (d : db) :
  (is_empty (strip query) = true ->
   search_repositories fts_ranked query limit d
   = Ok (map (fun result => content (Search.repo result)) (Search.get_all_repos limit d)))
  /\ (is_empty (strip query) = false ->
      fts_ranked query (repo_fts d) = None ->
      search_repositories fts_ranked query limit d = Raise OperationalError)
  /\ (forall listed,
        search_repositories fts_ranked query limit d = Ok listed ->
        Forall (fun rc => exists r, r ∈ repo_index d /\ content r = rc) listed
        /\ (0 <= limit -> (length listed <= Z.to_nat limit)%nat)).
Proof.
  unfold Pipeline.search_repositories. split; [|split].
  - intros ->. unfold Search.get_all_repos, Search.order_by_stars.
    by rewrite map_map.
  - by intros -> ->.
  - intros listed Hlisted.
    assert (Hfrom : exists rows, listed = map content (sql_limit limit rows)
                                 /\ rows ⊆ repo_index d).
    { destruct (is_empty (strip query)).
      - injection Hlisted as <-. eexists. split; [done|].
        intros r. by rewrite sort_desc_perm.
      - destruct (fts_ranked query (repo_fts d)) as [ids|]; [|done].
        injection Hlisted as <-. eexists. split; [done|].
        intros r Hr. apply list_elem_of_In, in_flat_map in Hr as (i & _ & Hin).
        by apply list_elem_of_In, list_elem_of_filter in Hin as [_ Hin]. }
    destruct Hfrom as (rows & -> & Hrows). split.
    + apply Forall_map, Forall_forall. intros r Hr. exists r. split; [|done].
      by apply Hrows, (sql_limit_subseteq limit rows).
    + intros Hlimit. rewrite length_map, sql_limit_length by done.
      apply Nat.le_min_l.
Qed.

End PipelineFacts.

(** * Properties of the listing loop *)

Section ListingFacts.
Import Pipeline.

Variable get_page : nat -> option (list repo_data).

Lemma fetch_pages_run (k fuel page : nat) (repos : list repo_data) :
  (forall p, (page <= p < page + k)%nat ->
             exists data, get_page p = Some data /\ data <> []) ->
  get_page (page + k)%nat = None \/ get_page (page + k)%nat = Some [] ->
  (k < fuel)%nat ->
  fetch_pages get_page fuel page repos
  = Some (repos ++ concat (map (fun p => default [] (get_page p)) (seq page k))).
Proof.
  revert fuel page repos. induction k as [|k IH]; intros fuel page repos Hfull Hend Hfuel.
  - destruct fuel as [|fuel]; [lia|]. cbn. rewrite Nat.add_0_r in Hend.
    rewrite app_nil_r. by destruct Hend as [->| ->].
  - destruct fuel as [|fuel]; [lia|].
    destruct (Hfull page) as (data & Hdata & Hne); [lia|].
    cbn [fetch_pages seq map concat]. rewrite Hdata. cbn [default].
    destruct data as [|x data]; [done|].
    rewrite (IH fuel (S page) (repos ++ x :: data)).
    + by rewrite <- app_assoc.
    + intros p Hp. apply Hfull. lia.
    + by replace (S page + k)%nat with (page + S k)%nat by lia.
    + lia.
Qed.

Lemma fetch_pages_endless (fuel page : nat) (repos : list repo_data) :
  (forall p, (page <= p)%nat -> exists data, get_page p = Some data /\ data <> []) ->
  fetch_pages get_page fuel page repos = None.
Proof.
  revert page repos. induction fuel as [|fuel IH]; intros page repos Hfull; [done|].
  destruct (Hfull page) as (data & Hdata & Hne); [lia|].
  cbn. rewrite Hdata. destruct data as [|x data]; [done|].
  apply IH. intros p Hp. apply Hfull. lia.
Qed.

(** X22. The listing is the records of the pages 1 to [k] in order, where
    page [k + 1] is the first page that is empty or fails: the loop ends
    there (any number of rounds above [k] suffices) and no later page is
    read into the result.  When every page has records the loop never
    ends. *)
Theorem fetch_starred_repos_pages :
  (forall k fuel,
     (forall p, (1 <= p <= k)%nat -> exists data, get_page p = Some data /\ data <> []) ->
     get_page (S k) = None \/ get_page (S k) = Some [] ->
     (k < fuel)%nat ->
     fetch_starred_repos get_page fuel
     = Some (concat (map (fun p => default [] (get_page p)) (seq 1 k))))
  /\ ((forall p, (1 <= p)%nat -> exists data, get_page p = Some data /\ data <> []) ->
      forall fuel, fetch_starred_repos get_page fuel = None).
Proof.
  split.
  - intros k fuel Hfull Hend Hfuel. unfold fetch_starred_repos.
    rewrite (fetch_pages_run k fuel 1 []); [done| |done|done].
    intros p Hp. apply Hfull. lia.
  - intros Hfull fuel. by apply fetch_pages_endless.
Qed.

End ListingFacts.

(** * Properties of the engine on the database it opens *)

Section EngineFacts.
Import Text Search Api.
Local Open Scope Q_scope.

Variable ratio : string -> string -> Q.
Variable log10 : Z -> Q.
Variable fts_match : string -> list fts_doc -> option (list Z).







End EngineFacts.

(** * The properties at sample inputs *)

Section Samples.
Import Text Indexer Search Sample.
Local Open Scope Q_scope.

Lemma upsert_gated_by_fingerprint_witness :
  save_to_database identity_digest dumps alpha_starred
    (save_to_database identity_digest dumps alpha empty_db)
  = save_to_database identity_digest dumps alpha empty_db.
Proof.
  apply (upsert_gated_by_fingerprint identity_digest dumps alpha alpha_starred empty_db);
    reflexivity.
Defined.

Lemma cache_freshness_witness :
  cache_lookup clock "octo/tool" "2024-01-01T00:00:00Z" tool_cache = Ok None.
Proof.
  apply (cache_freshness clock offline (fun s => s) 0 "octo/tool"
           "2024-01-01T00:00:00Z" tool_cache
           {| st_mtime := 1704067200; text := "cached text" |} 1704067200);
    [reflexivity | reflexivity | cbn; lia].
Defined.

Lemma shadow_index_keeps_replaced_document_witness :
  map fts_description
      (repo_fts (run identity_digest dumps [Upsert alpha; Upsert beta] empty_db))
  = ["alpha"; "beta"].
Proof.
  apply (shadow_index_keeps_replaced_document identity_digest dumps).
  vm_compute. discriminate.
Defined.

Lemma score_zero_keywords_witness :
  score_repository no_ratio log10_floor odd_row "The, and: for!"
  = Ok {| repo := odd_row; score := 0; matched_fields := []; snippets := [] |}.
Proof.
  apply (score_zero_keywords no_ratio log10_floor odd_row "The, and: for!").
  reflexivity.
Defined.

Lemma popularity_boost_bounded_witness :
  exists b, popularity_boost log10_floor 1000 = Ok b /\ b <= 0.5.
Proof.
  destruct (popularity_boost_bounded no_ratio log10_floor
              {| rowid := 2; content := fastjson; content_hash := "h2" |} "json")
    as (b & Hboost & _ & Hbound & _); [cbn; lia|].
  exists b. split; [exact Hboost | exact Hbound].
Defined.


Lemma fts_failure_fallback_gated_witness :
  Engine.search no_ratio log10_floor fts_raises "json" 1 0.1 (Some store) = Ok []
  /\ exists result,
       fuzzy_only no_ratio log10_floor "json" 1 0.1 store = Ok [result]
       /\ full_name (content (repo result)) = "octo/fastjson".
Proof.
  split.
  - destruct (fts_failure_fallback_gated no_ratio log10_floor fts_raises
                "json" 1 0.1 (Some store)) as [Hclosed _];
      [reflexivity | vm_compute; discriminate | reflexivity |].
    apply Hclosed. lia.
  - eexists. split; vm_compute; reflexivity.
Defined.

Lemma suggestions_guard_witness :
  get_suggestions dumps "j!" 10 store = []
  /\ (length (get_suggestions dumps "js" 10 store) <= 10)%nat.
Proof.
  destruct (suggestions_guard dumps "j!" 10 store) as (Hshort & _); [lia|].
  destruct (suggestions_guard dumps "js" 10 store) as (_ & _ & Hlength); [lia|].
  split; [apply Hshort; vm_compute; lia | exact Hlength].
Defined.

(** The scores of the two sample records for the query "json". *)
Example score_fastjson :
  match score_repository no_ratio log10_floor
          {| rowid := 2; content := fastjson; content_hash := "h2" |} "json" with
  | Ok result =>
      score result == 9.2
      /\ matched_fields result = ["name"; "full_name"; "description"; "topics"]
  | Raise _ => False
  end.
Proof. vm_compute. split; reflexivity. Qed.

Example score_slowjson :
  match score_repository no_ratio log10_floor
          {| rowid := 1; content := slowjson; content_hash := "h1" |} "json" with
  | Ok result => score result == 3.08 /\ matched_fields result = ["name"; "full_name"]
  | Raise _ => False
  end.
Proof. vm_compute. split; reflexivity. Qed.

(** The replaced document outlives its row: once the rowid is given out
    again, the stale document joins another repository. *)
Example replaced_document_joins_new_row :
  let d := run identity_digest dumps
             [Upsert alpha; Upsert beta; Delete "octo/tool"; Upsert fastjson] empty_db in
  map (fun r => (rowid r, full_name (content r))) (repo_index d) = [(1%Z, "octo/fastjson")]
  /\ map (fun doc => (fts_rowid doc, fts_description doc)) (repo_fts d)
     = [(1%Z, "alpha"); (1%Z, "a fast json parser")].
Proof. vm_compute. split; reflexivity. Qed.

(** Queries without keywords: empty, stop words only, short tokens only. *)
Example queries_without_keywords :
  map (fun query => extract_keywords (normalize_query query))
      [""; "   "; "The AND for"; "ab, cd! e_"; "?!"]
  = [[]; []; []; []; []].
Proof. reflexivity. Qed.

Example normalize_query_sample :
  normalize_query "  Fast-JSON   parser (v2)! " = "fast json parser v2"
  /\ extract_keywords (normalize_query "  Fast-JSON   parser (v2)! ")
     = ["fast"; "json"; "parser"].
Proof. split; reflexivity. Qed.

(** A negative [limit] is Python's "all but the last": the bound of C9 is
    for limits that are not negative. *)
Example suggestions_negative_limit :
  length (get_suggestions dumps "js" (-1) store) = 2%nat.
Proof. vm_compute. reflexivity. Qed.

End Samples.

Section SyncFacts.
Import Indexer.

Variable md5 : string -> string.
Variable json_dumps : list string -> string.

Lemma filter_none_keeps_all (fn : string) (rows : list row) :
  filter (fun r => has_name fn r = true) rows = [] ->
  filter (fun r => has_name fn r <> true) rows = rows.
Proof.
  induction rows as [|r rows IH]; [done|]. rewrite !filter_cons.
  destruct (decide (has_name fn r = true)) as [Hr|Hr]; [done|].
  intros Hnone. destruct (decide (has_name fn r <> true)); [|done].
  by rewrite (IH Hnone).
Qed.

(** X21. From a database whose shadow index is in step, [save_to_database]
    leaves it in step exactly when it does not replace a row: when the
    [full_name] is new, or when the stored fingerprint is the record's and
    the write is skipped. *)
Theorem save_to_database_in_sync_iff (rc : RepoContent) (d : db) :
  in_sync json_dumps d ->
  in_sync json_dumps (save_to_database md5 json_dumps rc d)
  <-> select_content_hash (full_name rc) d = None
      \/ select_content_hash (full_name rc) d = Some (get_content_hash md5 rc).
Proof.
  intros Hsync. split.
  - intros Hafter.
    destruct (select_content_hash (full_name rc) d) as [stored|] eqn:Hsel; [|by left].
    right. f_equal.
    destruct (decide (stored = get_content_hash md5 rc)) as [|Hne]; [done|].
    by destruct (replacing_write_breaks_sync md5 json_dumps rc d stored Hsync Hsel Hne)
      as (_ & _ & Hbroken).
  - intros [Hnew|Hsame].
    + unfold save_to_database. rewrite Hnew.
      unfold select_content_hash in Hnew.
      assert (Hnone : filter (fun r => has_name (full_name rc) r = true) (repo_index d) = []).
      { by destruct (filter _ (repo_index d)). }
      unfold in_sync, insert_or_replace, connection_recursive_triggers, repo_ai,
        with_fts, fts_insert. cbn [repo_index repo_fts].
      rewrite (filter_none_keeps_all _ _ Hnone), map_app.
      by apply Permutation_app.
    + by rewrite (save_skips md5 json_dumps rc d Hsame).
Qed.

End SyncFacts.

(** * The further properties at sample inputs *)

Section MoreSamples.
Import Text Indexer Search Pipeline Api Sample.
Local Open Scope Q_scope.

Lemma search_keywords_only_witness :
  search no_ratio log10_floor fts_raises "JSON parser!" 10 0.1 store
  = search no_ratio log10_floor fts_raises "the json, parser" 10 0.1 store.
Proof.
  apply (search_keywords_only no_ratio log10_floor fts_raises
           "JSON parser!" "the json, parser" 10 0.1 store odd_row).
  reflexivity.
Defined.

Lemma search_results_kept_witness :
  match search no_ratio log10_floor fts_raises "json" 10 0.1 store with
  | Ok results => StronglySorted (fun a b => score b <= score a) results
  | Raise _ => True
  end.
Proof.
  destruct (search no_ratio log10_floor fts_raises "json" 10 0.1 store)
    as [results|e] eqn:Hsearch; [|exact I].
  apply (search_results_kept no_ratio log10_floor fts_raises "json" 10 0.1 store results);
    [reflexivity | vm_compute; discriminate | exact Hsearch].
Defined.

Lemma search_respects_limit_witness :
  match search no_ratio log10_floor fts_raises "json" 2 0.1 store with
  | Ok results => (length results <= 2)%nat
  | Raise _ => True
  end.
Proof.
  destruct (search no_ratio log10_floor fts_raises "json" 2 0.1 store)
    as [results|e] eqn:Hsearch; [|exact I].
  apply (search_respects_limit no_ratio log10_floor fts_raises "json" 2 0.1 store results);
    [discriminate | exact Hsearch].
Defined.

Lemma score_bounds_witness :
  match score_repository no_ratio log10_floor
          {| rowid := 2; content := fastjson; content_hash := "h2" |} "json" with
  | Ok result => score result <= 12
  | Raise _ => True
  end.
Proof.
  destruct (score_repository no_ratio log10_floor
              {| rowid := 2; content := fastjson; content_hash := "h2" |} "json")
    as [result|e] eqn:Hscore; [|exact I].
  apply (score_bounds no_ratio log10_floor
           {| rowid := 2; content := fastjson; content_hash := "h2" |}
           ["json"] "a fast json parser" "json" result);
    [intros a b; discriminate | discriminate | exact Hscore].
Defined.

Lemma matched_on_containment_witness :
  match score_repository no_ratio log10_floor
          {| rowid := 2; content := fastjson; content_hash := "h2" |} "json" with
  | Ok result => "name" ∈ matched_fields result
  | Raise _ => True
  end.
Proof.
  destruct (score_repository no_ratio log10_floor
              {| rowid := 2; content := fastjson; content_hash := "h2" |} "json")
    as [result|e] eqn:Hscore; [|exact I].
  apply (matched_on_containment no_ratio log10_floor
           {| rowid := 2; content := fastjson; content_hash := "h2" |}
           "json" result Name "json" "fastjson" Hscore);
    [left; reflexivity | left; reflexivity | right; left; reflexivity].
Defined.

Lemma suggestions_sound_witness :
  contains (normalize_query "JS") (lower "fastjson") = true.
Proof.
  apply (suggestions_sound dumps "JS" 10 store "fastjson").
  apply list_elem_of_In. vm_compute. auto.
Defined.

Lemma download_then_cached_witness :
  fetch_readme_content clock offline (fun s => s) 0 "octo/tool" "2024-01-01T00:00:00Z"
    (<[cache_file "octo/tool" := {| st_mtime := 1704067201; text := "Tool" |}]> ∅)
  = Ok ("Tool",
        <[cache_file "octo/tool" := {| st_mtime := 1704067201; text := "Tool" |}]> ∅).
Proof.
  pose proof (download_then_cached clock online (fun s => s) 1704067201 "octo/tool"
                "2024-01-01T00:00:00Z" ∅ ["README.md"]
                ["README.rst"; "README.txt"; "README"] "readme.md" "Tool" 1704067200
                eq_refl) as Hcached.
  cbv zeta in Hcached.
  apply Hcached; [by repeat constructor | reflexivity | reflexivity | reflexivity | reflexivity].
Defined.

Lemma no_readme_no_cache_witness :
  fetch_readme_content clock offline (fun s => s) 0 "octo/tool" "2024-01-01T00:00:00Z" ∅
  = Ok (EmptyString, ∅).
Proof.
  apply (no_readme_no_cache clock offline (fun s => s) 0 "octo/tool"
           "2024-01-01T00:00:00Z" ∅);
    [by repeat constructor | reflexivity].
Defined.

Lemma save_to_database_consistent_witness :
  consistent identity_digest dumps
    (save_to_database identity_digest dumps alpha empty_db).
Proof.
  apply (save_to_database_consistent identity_digest dumps alpha empty_db).
  unfold consistent, unique_names. cbn.
  split; [apply NoDup_nil_2|]. split; [apply NoDup_nil_2|]. split; [constructor | done].
Defined.

Lemma build_index_skips_failure_witness :
  build_index identity_digest dumps clock offline (fun s => s) stamp
    ([] ++ (0%Z, tool_undated) :: [(5%Z, lib_archived)]) cached_pass
  = build_index identity_digest dumps clock offline (fun s => s) stamp
      ([] ++ [(5%Z, lib_archived)]) cached_pass.
Proof.
  apply (build_index_skips_failure identity_digest dumps clock offline (fun s => s) stamp
           [] [(5%Z, lib_archived)] 0 tool_undated cached_pass ValueError).
  reflexivity.
Defined.

Lemma build_index_report_witness :
  consistent identity_digest dumps
    (database (build_index identity_digest dumps clock online (fun s => s) stamp
                 [(1704067201%Z, tool_listed); (1704067202%Z, lib_archived)] fresh_pass)).
Proof.
  apply (build_index_report identity_digest dumps clock online (fun s => s) stamp
           [(1704067201%Z, tool_listed); (1704067202%Z, lib_archived)] fresh_pass).
  unfold consistent, unique_names. cbn.
  split; [apply NoDup_nil_2|]. split; [apply NoDup_nil_2|]. split; [constructor | done].
Defined.

Lemma save_to_database_in_sync_iff_witness :
  in_sync dumps (save_to_database identity_digest dumps fastjson
                   (save_to_database identity_digest dumps alpha empty_db)).
Proof.
  apply (save_to_database_in_sync_iff identity_digest dumps fastjson
           (save_to_database identity_digest dumps alpha empty_db)).
  - unfold in_sync. reflexivity.
  - left. reflexivity.
Defined.

(** The pass over the two sample records: one README downloaded and
    cached, none fetched for the archived record. *)
Example build_index_sample :
  let st := build_index identity_digest dumps clock online (fun s => s) stamp
              [(1704067201%Z, tool_listed); (1704067202%Z, lib_archived)] fresh_pass in
  map (fun rc => (full_name rc, readme_content rc, archived rc)) (processed_repos st)
  = [("octo/tool", "Tool", false); ("octo/lib", "", true)]
  /\ map (fun r => (rowid r, full_name (content r))) (repo_index (database st))
     = [(1%Z, "octo/tool"); (2%Z, "octo/lib")]
  /\ cache st !! cache_file "octo/lib" = None.
Proof. vm_compute. repeat split. Qed.

(** A listing of two pages: three rounds read it, two do not end the loop. *)
Example fetch_starred_repos_sample :
  fetch_starred_repos two_pages 3 = Some [tool_listed; lib_archived; tool_undated]
  /\ fetch_starred_repos two_pages 2 = None.
Proof. done. Qed.

(** A negative [limit] passes the cap as it is: in browse mode [LIMIT -1]
    lists every row. *)
Example api_search_negative_limit :
  api_search no_ratio log10_floor fts_raises "" (-1) 0.1 (Some store)
  = (Found "" 2 (get_all_repos (-1) store), 200%Z).
Proof. vm_compute. reflexivity. Qed.

(** On a database without the tables the endpoint answers 500 with the
    [OperationalError] of the first [SELECT] outside a [try]; with [limit]
    1 and a query with a keyword no such statement runs, and the reply is
    an empty list. *)
Example api_search_without_tables :
  api_search no_ratio log10_floor fts_raises "" 50 0.1 None = (Failed OperationalError, 500%Z)
  /\ api_search no_ratio log10_floor fts_raises "json" 50 0.1 None
     = (Failed OperationalError, 500%Z)
  /\ api_search no_ratio log10_floor fts_raises "json" 1 0.1 None = (Found "json" 0 [], 200%Z).
Proof. vm_compute. repeat split. Qed.

End MoreSamples.
